(** * pygeosolve: the constraint classes of [pygeosolve/constraints.py]

    A shallow embedding of [AbstractConstraint] and its three concrete
    subclasses, and the properties of their [error], [points] and [params]
    members.

    Python floats are IEEE 754 binary64 numbers; they are modelled by Rocq's
    primitive floats, whose operations are the same correctly rounded
    binary64 operations ([SpecFloat] gives their specification).  The
    subtraction, [np.abs] and the comparison [<] of the source are [-],
    [abs] and [<?] on these.

    The modules [geometry], [parameters] and [tools] that the file imports
    are not part of the sources.  What the constraints use of them is
    modelled from the specification, each such definition saying so, except
    [tools.angle_between], which the error of an [AngularConstraint] takes
    as a parameter. *)

From Stdlib Require Import ZArith Lia Floats.
From stdpp Require Import base list strings.

Open Scope float_scope.

(** ** Exceptions and fallible computations *)

Inductive exn : Type :=
  | ValueError (msg : string)
  | TypeError
  | IndexError
  | AttributeError
  | OverflowError
  | ZeroDivisionError.

Inductive result (A : Type) : Type :=
  | Ok (a : A)
  | Raise (e : exn).

Arguments Ok {A} a.
Arguments Raise {A} e.

#[global] Instance result_ret : MRet result := fun A a => Ok a.

#[global] Instance result_bind : MBind result := fun A B k r =>
  match r with
  | Ok a => k a
  | Raise e => Raise e
  end.

(** ** Parameters, points and primitives *)

(** Modelled from the spec: [pygeosolve/parameters.py] (class [Parameter]) is
    not part of the sources.  A Parameter is an object holding one mutable
    float; two Parameters are the same only if they are the same object.  An
    object is represented by its address, and the values currently held by
    all Parameter objects by a store. *)
Definition Param : Type := nat.

Definition pstate : Type := Param -> float.

(** Modelled from the spec: [pygeosolve/geometry.py] (classes [Point] and
    [Line]) is not part of the sources.  A Point refers to exactly two
    Parameters, a Line to its start and end Points. *)
Record Point : Type := mkPoint { x : Param; y : Param }.

Record Line : Type := mkLine { start : Point; end_ : Point }.

Inductive Primitive : Type :=
  | PrimPoint (p : Point)
  | PrimLine (l : Line).

(** Modelled from the spec: [Primitive.points]; a Point is trivially itself,
    a Line yields [start, end]. *)
Definition Primitive_points (p : Primitive) : list Point :=
  match p with
  | PrimPoint q => [q]
  | PrimLine l => [start l; end_ l]
  end.

(** Modelled from the spec: the result of subtracting two Points, a vector
    that holds plain values and shares no Parameter with its operands. *)
Record Vec : Type := mkVec { vx : float; vy : float }.

(** Modelled from the spec: [Point.__sub__], component-wise on the values
    currently held by the Parameters. *)
Definition Point_sub (st : pstate) (a b : Point) : Vec :=
  {| vx := st (x a) - st (x b); vy := st (y a) - st (y b) |}.

(** Modelled from the spec: [.abs()], the magnitude [sqrt(dx^2 + dy^2)];
    a square is the product of the component with itself. *)
Definition Vec_abs (v : Vec) : float :=
  sqrt (vx v * vx v + vy v * vy v).

(** Modelled from the spec: [Line.vector], end - start. *)
Definition Line_vector (st : pstate) (l : Line) : Vec :=
  Point_sub st (end_ l) (start l).

(** Modelled from the spec: [Line.hypot], the magnitude of the vector. *)
Definition Line_hypot (st : pstate) (l : Line) : float :=
  Vec_abs (Line_vector st l).

(** ** Python values passed to [float()] *)

(** The values a caller passes as a length: a float, an int, or an object
    [float()] cannot convert (represented by [None]). *)
Inductive pyvalue : Type :=
  | PyFloat (f : float)
  | PyInt (z : Z)
  | PyNone.

(** [float(z)] for an int: the nearest binary64 number (ties to even), and
    [OverflowError] when it is out of range. *)
Definition int_to_float (z : Z) : result float :=
  let f := SF2Prim (binary_normalize prec emax z 0 false) in
  if is_infinity f then Raise OverflowError else Ok f.

Definition py_float (v : pyvalue) : result float :=
  match v with
  | PyFloat f => Ok f
  | PyInt z => int_to_float z
  | PyNone => Raise TypeError
  end.

(** ** [AbstractConstraint] *)

(** The abstract base class: the [primitives] attribute and the abstract
    method [error], which reads the current values of the Parameters. *)
Class AbstractConstraint (C : Type) : Type := {
  primitives : C -> list Primitive;
  error : pstate -> C -> result float
}.

(** [functools.reduce(operator.add, points)]: no initial value, so an empty
    list raises [TypeError]. *)
Definition reduce_add (ls : list (list Point)) : result (list Point) :=
  match ls with
  | [] => Raise TypeError
  | l :: ls' => Ok (foldl app l ls')
  end.

(** The [points] property. *)
Definition points `{AbstractConstraint C} (self : C) : result (list Point) :=
  reduce_add (map Primitive_points (primitives self)).

(** [if p not in params: params.append(p)]; [not in] compares Parameter
    objects, that is addresses. *)
Definition append_if_absent (params : list Param) (p : Param) : list Param :=
  if decide (p ∈ params) then params else params ++ [p].

(** One iteration of the loop of [params]. *)
Definition params_step (params : list Param) (point : Point) : list Param :=
  append_if_absent (append_if_absent params (x point)) (y point).

Definition params_loop (pts : list Point) : list Param :=
  foldl params_step [] pts.

(** The [params] property. *)
Definition params `{AbstractConstraint C} (self : C) : result (list Param) :=
  pts ← points self; Ok (params_loop pts).

(** [self.primitives[i]] *)
Definition getitem (ps : list Primitive) (i : nat) : result Primitive :=
  match ps !! i with
  | Some p => Ok p
  | None => Raise IndexError
  end.

(** A primitive used as a Line (respectively as a Point); a primitive of the
    other kind lacks the member that is called on it. *)
Definition as_line (p : Primitive) : result Line :=
  match p with
  | PrimLine l => Ok l
  | PrimPoint _ => Raise AttributeError
  end.

Definition as_point (p : Primitive) : result Point :=
  match p with
  | PrimPoint q => Ok q
  | PrimLine _ => Raise AttributeError
  end.

(** ** [LineLengthConstraint] *)

Record LineLengthConstraint : Type := mkLineLengthConstraint {
  LineLengthConstraint_primitives : list Primitive;
  _length : float
}.

(** The body of the [length] setter up to the assignment: the value that is
    stored in [_length], or the exception raised. *)
Definition length_setter_value (length : pyvalue) : result float :=
  length ← py_float length;
  if length <? 0 then Raise (ValueError "Length must be >= 0")
  else Ok length.

(** [self.length = length] *)
Definition LineLengthConstraint_set_length
    (self : LineLengthConstraint) (length : pyvalue)
    : result LineLengthConstraint :=
  l ← length_setter_value length;
  Ok {| LineLengthConstraint_primitives :=
          LineLengthConstraint_primitives self;
        _length := l |}.

(** [LineLengthConstraint(line, length)] *)
Definition LineLengthConstraint_init (line : Line) (length : pyvalue)
    : result LineLengthConstraint :=
  l ← length_setter_value length;
  Ok {| LineLengthConstraint_primitives := [PrimLine line]; _length := l |}.

(** The [length] getter. *)
Definition LineLengthConstraint_length (self : LineLengthConstraint) : float :=
  _length self.

(** The [line] property. *)
Definition LineLengthConstraint_line (self : LineLengthConstraint)
    : result Line :=
  p ← getitem (LineLengthConstraint_primitives self) 0; as_line p.

Definition LineLengthConstraint_error
    (st : pstate) (self : LineLengthConstraint) : result float :=
  line ← LineLengthConstraint_line self;
  Ok (abs (Line_hypot st line - LineLengthConstraint_length self)).

#[global] Instance LineLengthConstraint_constraint
    : AbstractConstraint LineLengthConstraint := {
  primitives := LineLengthConstraint_primitives;
  error := LineLengthConstraint_error
}.

(** ** [PointToPointDistanceConstraint] *)

Record PointToPointDistanceConstraint : Type :=
  mkPointToPointDistanceConstraint {
  PointToPointDistanceConstraint_primitives : list Primitive;
  distance : float
}.

(** [PointToPointDistanceConstraint(point_a, point_b, distance)]: the
    distance is stored as it is given, with no conversion and no check; it
    is represented by the float that takes part in the subtraction of
    [error]. *)
Definition PointToPointDistanceConstraint_init
    (point_a point_b : Point) (distance : float)
    : PointToPointDistanceConstraint :=
  {| PointToPointDistanceConstraint_primitives :=
       [PrimPoint point_a; PrimPoint point_b];
     distance := distance |}.

Definition point_a (self : PointToPointDistanceConstraint) : result Point :=
  p ← getitem (PointToPointDistanceConstraint_primitives self) 0; as_point p.

Definition point_b (self : PointToPointDistanceConstraint) : result Point :=
  p ← getitem (PointToPointDistanceConstraint_primitives self) 1; as_point p.

Definition PointToPointDistanceConstraint_error
    (st : pstate) (self : PointToPointDistanceConstraint) : result float :=
  a ← point_a self;
  b ← point_b self;
  Ok (abs (Vec_abs (Point_sub st a b) - distance self)).

#[global] Instance PointToPointDistanceConstraint_constraint
    : AbstractConstraint PointToPointDistanceConstraint := {
  primitives := PointToPointDistanceConstraint_primitives;
  error := PointToPointDistanceConstraint_error
}.

(** ** [AngularConstraint] *)

Record AngularConstraint : Type := mkAngularConstraint {
  AngularConstraint_primitives : list Primitive;
  angle : float
}.

(** [AngularConstraint(line_a, line_b, angle)]: the angle is stored as it is
    given, with no conversion and no check; it is represented by the float
    that takes part in the subtraction of [error]. *)
Definition AngularConstraint_init (line_a line_b : Line) (angle : float)
    : AngularConstraint :=
  {| AngularConstraint_primitives := [PrimLine line_a; PrimLine line_b];
     angle := angle |}.

Definition line_a (self : AngularConstraint) : result Line :=
  p ← getitem (AngularConstraint_primitives self) 0; as_line p.

Definition line_b (self : AngularConstraint) : result Line :=
  p ← getitem (AngularConstraint_primitives self) 1; as_line p.

Section Angular.

(** [tools.angle_between] is not part of the sources: the measured angle
    (in degrees) of two lines in the current state, or the exception the
    computation raises. *)
Variable angle_between : pstate -> Line -> Line -> result float.

Definition AngularConstraint_error
    (st : pstate) (self : AngularConstraint) : result float :=
  a ← line_a self;
  b ← line_b self;
  measured ← angle_between st a b;
  Ok (abs (measured - angle self)).

Definition AngularConstraint_constraint
    : AbstractConstraint AngularConstraint := {|
  primitives := AngularConstraint_primitives;
  error := AngularConstraint_error
|}.

End Angular.

(** ** Specification-side definitions *)

(** The elements of [l] in first-seen order, each kept once. *)
Fixpoint first_seen (l : list Param) : list Param :=
  match l with
  | [] => []
  | p :: l' => p :: filter (fun q => q ≠ p) (first_seen l')
  end.

(** The Parameters of a list of points, in the order they are met. *)
Definition coordinates (pts : list Point) : list Param :=
  pts ≫= fun pt => [x pt; y pt].

(** What the error [e] of a constraint with measured quantity [m] and target
    [t] satisfies: it is never negative; it is NaN exactly when [m] or [t]
    is, or when they are the same infinity; and when it is not NaN it is at
    least zero, and zero exactly when [m == t]. *)
Definition error_invariant (m t e : float) : Prop :=
  (e <? 0) = false /\
  is_nan e = is_nan m || is_nan t || (is_infinity m && (m =? t)) /\
  (is_nan e = false -> (0 <=? e) = true /\ (e =? 0) = (m =? t)).

(** Classification of [SpecFloat] values: the results that carry the sign
    [s], and among them those that are not a zero. *)
Definition SF_signed (s : bool) (r : spec_float) : Prop :=
  match r with
  | S754_zero s' | S754_infinity s' | S754_finite s' _ _ => s' = s
  | S754_nan => False
  end.

Definition SF_signed_nonzero (s : bool) (r : spec_float) : Prop :=
  match r with
  | S754_infinity s' | S754_finite s' _ _ => s' = s
  | S754_zero _ | S754_nan => False
  end.

Definition SF_is_nan (r : spec_float) : bool :=
  match r with
  | S754_nan => true
  | _ => false
  end.

Definition SF_is_infinity (r : spec_float) : bool :=
  match r with
  | S754_infinity _ => true
  | _ => false
  end.

(** ** States and objects used in examples *)

(** The store in which Parameter [i] holds the [i]-th value of [vs]
    (and 0 beyond). *)
Definition state_of (vs : list float) : pstate :=
  fun p => default 0 (vs !! p).

(** The point whose Parameters are the objects [i] and [i + 1]. *)
Definition point_at (i : nat) : Point := {| x := i; y := S i |}.

(** The line from (0,0) to (3,4). *)
Definition line_3_4 : Line := mkLine (point_at 0) (point_at 2).
Definition state_3_4 : pstate := state_of [0; 0; 3; 4].

(** The points (0,0) and (1,1). *)
Definition state_1_1 : pstate := state_of [0; 0; 1; 1].

(** Two lines: the first from (1,1) to (1,1), of length zero, the second
    from (0,0) to (1,0). *)
Definition degenerate_line : Line := mkLine (point_at 0) (point_at 2).
Definition unit_line : Line := mkLine (point_at 4) (point_at 6).
Definition state_degenerate : pstate := state_of [1; 1; 1; 1; 0; 0; 1; 0].

(** Two lines that share the point in the middle. *)
Definition shared_lines : list Primitive :=
  [PrimLine (mkLine (point_at 0) (point_at 2));
   PrimLine (mkLine (point_at 2) (point_at 4))].

(** * Properties *)

(** ** Rounding in [SpecFloat]

    Facts about the specification of the binary64 operations: the sign and
    the NaN-freeness of what rounding returns, and when a difference is
    zero. *)

Section Rounding.

#[local] Open Scope Z_scope.

Lemma digits2_pos_bounds (m : positive) :
  2 ^ (Z.pos (digits2_pos m) - 1) <= Z.pos m < 2 ^ Z.pos (digits2_pos m).
Proof.
  induction m as [m IH|m IH|]; simpl digits2_pos.
  - rewrite Pos2Z.inj_succ.
    replace (Z.succ (Z.pos (digits2_pos m)) - 1) with (Z.succ (Z.pos (digits2_pos m) - 1)) by lia.
    rewrite !Z.pow_succ_r by lia. lia.
  - rewrite Pos2Z.inj_succ.
    replace (Z.succ (Z.pos (digits2_pos m)) - 1) with (Z.succ (Z.pos (digits2_pos m) - 1)) by lia.
    rewrite !Z.pow_succ_r by lia. lia.
  - simpl. lia.
Qed.

Lemma shr_m_shr_1 (mrs : shr_record) :
  0 <= shr_m mrs -> shr_m (shr_1 mrs) = shr_m mrs / 2.
Proof.
  destruct mrs as [m r s]. simpl. intros Hm.
  destruct m as [|[p|p|]|p]; simpl; try lia; try reflexivity.
  - apply Z.div_unique with 1; lia.
  - apply Z.div_unique with 0; lia.
Qed.

Lemma pow2_xO (p : positive) : 2 ^ Z.pos p~0 = 2 ^ Z.pos p * 2 ^ Z.pos p.
Proof. rewrite <- Z.pow_add_r by lia. f_equal. lia. Qed.

Lemma pow2_xI (p : positive) : 2 ^ Z.pos p~1 = 2 * (2 ^ Z.pos p * 2 ^ Z.pos p).
Proof.
  rewrite <- Z.pow_add_r, <- Z.pow_succ_r by lia. f_equal. lia.
Qed.

Lemma shr_m_iter_pos (p : positive) (mrs : shr_record) :
  0 <= shr_m mrs ->
  shr_m (SpecFloat.iter_pos shr_1 p mrs) = shr_m mrs / 2 ^ Z.pos p.
Proof.
  revert mrs. induction p as [p IH|p IH|]; intros mrs Hm; simpl SpecFloat.iter_pos.
  - assert (H1 : 0 <= shr_m (shr_1 mrs)).
    { rewrite shr_m_shr_1 by done. apply Z.div_pos; lia. }
    assert (H2 : 0 <= shr_m (SpecFloat.iter_pos shr_1 p (shr_1 mrs))).
    { rewrite IH by done. apply Z.div_pos; lia. }
    rewrite IH, IH, shr_m_shr_1 by done.
    rewrite !Z.div_div by lia. now rewrite pow2_xI.
  - assert (H2 : 0 <= shr_m (SpecFloat.iter_pos shr_1 p mrs)).
    { rewrite IH by done. apply Z.div_pos; lia. }
    rewrite IH, IH by done.
    rewrite !Z.div_div by lia. now rewrite pow2_xO.
  - rewrite shr_m_shr_1 by done. now rewrite Z.pow_1_r.
Qed.

Lemma shr_m_shr_record_of_loc (m : Z) (l : location) :
  shr_m (shr_record_of_loc m l) = m.
Proof. now destruct l as [|[]]. Qed.

Lemma round_nearest_even_ge (m : Z) (l : location) :
  m <= round_nearest_even m l.
Proof. destruct l as [|[]]; simpl; try destruct (Z.even m); lia. Qed.

Lemma shr_nonneg (mrs : shr_record) (e n : Z) :
  0 <= shr_m mrs -> 0 <= shr_m (fst (shr mrs e n)).
Proof.
  intros Hm. destruct n as [|p|p]; simpl; try done.
  rewrite shr_m_iter_pos by done. apply Z.div_pos; lia.
Qed.

Lemma shr_fexp_nonneg (m e : Z) (l : location) :
  0 <= m -> 0 <= shr_m (fst (shr_fexp prec emax m e l)).
Proof.
  intros Hm. unfold shr_fexp. apply shr_nonneg.
  now rewrite shr_m_shr_record_of_loc.
Qed.

Lemma shr_fexp_pos (m e : Z) (l : location) :
  0 < m -> emin <= e ->
  0 < shr_m (fst (shr_fexp prec emax m e l)) /\
  emin <= snd (shr_fexp prec emax m e l).
Proof.
  intros Hm He. unfold shr_fexp.
  destruct m as [|m|m]; try lia. simpl Zdigits2.
  pose proof (digits2_pos_bounds m) as [Hlo Hhi].
  set (d := Z.pos (digits2_pos m)) in *.
  destruct (fexp prec emax (d + e) - e) as [|n|n] eqn:Hn; simpl;
    rewrite ?shr_m_shr_record_of_loc; try (split; lia).
  rewrite shr_m_iter_pos by (rewrite shr_m_shr_record_of_loc; lia).
  rewrite shr_m_shr_record_of_loc.
  unfold fexp, SpecFloat.emin, prec, emax in *.
  assert (Hd : Z.pos n = d - 53) by lia.
  split; [|lia].
  apply Z.div_str_pos. split; [lia|].
  etransitivity; [|exact Hlo]. apply Z.pow_le_mono_r; lia.
Qed.

Lemma binary_round_aux_signed (s : bool) (m e : Z) (l : location) :
  0 <= m -> SF_signed s (binary_round_aux prec emax s m e l).
Proof.
  intros Hm. unfold binary_round_aux.
  pose proof (shr_fexp_nonneg m e l Hm) as H1.
  destruct (shr_fexp prec emax m e l) as [mrs' e']. simpl in H1.
  pose proof (round_nearest_even_ge (shr_m mrs') (loc_of_shr_record mrs')) as H2.
  pose proof (shr_fexp_nonneg
    (round_nearest_even (shr_m mrs') (loc_of_shr_record mrs')) e' loc_Exact
    ltac:(lia)) as H3.
  destruct (shr_fexp prec emax _ e' loc_Exact) as [mrs'' e'']. simpl in H3.
  destruct (shr_m mrs'') as [|q|q]; simpl; try done.
  now destruct (e'' <=? emax - prec).
Qed.

Lemma binary_round_aux_signed_nonzero (s : bool) (m e : Z) (l : location) :
  0 < m -> emin <= e ->
  SF_signed_nonzero s (binary_round_aux prec emax s m e l).
Proof.
  intros Hm He. unfold binary_round_aux.
  pose proof (shr_fexp_pos m e l Hm He) as [H1 H1'].
  destruct (shr_fexp prec emax m e l) as [mrs' e']. simpl in H1, H1'.
  pose proof (round_nearest_even_ge (shr_m mrs') (loc_of_shr_record mrs')) as H2.
  pose proof (shr_fexp_pos
    (round_nearest_even (shr_m mrs') (loc_of_shr_record mrs')) e' loc_Exact
    ltac:(lia) H1') as [H3 _].
  destruct (shr_fexp prec emax _ e' loc_Exact) as [mrs'' e'']. simpl in H3.
  destruct (shr_m mrs'') as [|q|q]; simpl; try lia.
  now destruct (e'' <=? emax - prec).
Qed.

Lemma shl_align_exponent (m : positive) (e e' : Z) :
  snd (shl_align m e e') = Z.min e e'.
Proof.
  unfold shl_align. destruct (e' - e) as [|d|d] eqn:Hd; simpl; lia.
Qed.

Lemma iter_xO_mul (m d : positive) :
  Z.pos (Pos.iter xO m d) = Z.pos m * 2 ^ Z.pos d.
Proof.
  revert m. induction d as [d IH|d IH|]; intros m; simpl Pos.iter.
  - rewrite Pos2Z.inj_xO, !IH, pow2_xI. lia.
  - rewrite !IH, pow2_xO. lia.
  - rewrite Z.pow_1_r. lia.
Qed.

Lemma shl_align_mantissa (m : positive) (e e' : Z) :
  e' <= e -> Z.pos (fst (shl_align m e e')) = Z.pos m * 2 ^ (e - e').
Proof.
  intros Hle. unfold shl_align.
  destruct (e' - e) as [|d|d] eqn:Hd; simpl; try lia.
  - replace (e - e') with 0 by lia. lia.
  - rewrite iter_xO_mul. f_equal. f_equal. lia.
Qed.

Lemma binary_round_signed_nonzero (s : bool) (m : positive) (e : Z) :
  emin <= e -> SF_signed_nonzero s (binary_round prec emax s m e).
Proof.
  intros He. unfold binary_round.
  pose proof (shl_align_exponent m e
    (fexp prec emax (Z.pos (digits2_pos m) + e))) as Hz.
  destruct (shl_align m e _) as [mz ez]. simpl in Hz.
  apply binary_round_aux_signed_nonzero; [lia|].
  subst ez. unfold fexp, SpecFloat.emin, prec, emax in *. lia.
Qed.

Lemma bounded_emin (m : positive) (e : Z) :
  bounded prec emax m e = true -> emin <= e.
Proof.
  unfold bounded, canonical_mantissa. intros [H _]%andb_prop.
  apply Z.eqb_eq in H.
  unfold fexp, SpecFloat.emin, prec, emax in *. lia.
Qed.

Lemma digits2_pos_unique (m : positive) (d : Z) :
  2 ^ (d - 1) <= Z.pos m < 2 ^ d -> 0 < d -> d = Z.pos (digits2_pos m).
Proof.
  intros [Hlo Hhi] Hd.
  pose proof (digits2_pos_bounds m) as [Hlo' Hhi'].
  set (d' := Z.pos (digits2_pos m)) in *.
  assert (Hd' : 0 < d') by (unfold d'; lia).
  destruct (Z.lt_trichotomy d d') as [Hlt|[Heq|Hgt]]; [|done|].
  - assert (2 ^ d <= 2 ^ (d' - 1)) by (apply Z.pow_le_mono_r; lia). lia.
  - assert (2 ^ d' <= 2 ^ (d - 1)) by (apply Z.pow_le_mono_r; lia). lia.
Qed.

Lemma digits2_pos_shift (m1 m2 : positive) (k : Z) :
  0 <= k -> Z.pos m1 = Z.pos m2 * 2 ^ k ->
  Z.pos (digits2_pos m1) = Z.pos (digits2_pos m2) + k.
Proof.
  intros Hk Hm. symmetry. apply digits2_pos_unique; [|lia].
  pose proof (digits2_pos_bounds m2) as [Hlo Hhi].
  assert (Hp : 0 < 2 ^ k) by (apply Z.pow_pos_nonneg; lia).
  rewrite Hm. rewrite Z.pow_add_r by lia.
  replace (Z.pos (digits2_pos m2) + k - 1)
    with (Z.pos (digits2_pos m2) - 1 + k) by lia.
  rewrite Z.pow_add_r by lia. split; nia.
Qed.

Lemma canonical_unique_le (m1 m2 : positive) (e1 e2 : Z) :
  bounded prec emax m1 e1 = true -> bounded prec emax m2 e2 = true ->
  e1 <= e2 -> Z.pos m1 = Z.pos m2 * 2 ^ (e2 - e1) ->
  m1 = m2 /\ e1 = e2.
Proof.
  intros [H1 _]%andb_prop [H2 _]%andb_prop Hle Hm.
  unfold canonical_mantissa in *. apply Z.eqb_eq in H1, H2.
  pose proof (digits2_pos_shift m1 m2 (e2 - e1) ltac:(lia) Hm) as Hd.
  assert (He : e1 = e2).
  { rewrite Hd in H1. replace (Z.pos (digits2_pos m2) + (e2 - e1) + e1)
      with (Z.pos (digits2_pos m2) + e2) in H1 by lia. lia. }
  subst e2. split; [|done].
  rewrite Z.sub_diag, Z.pow_0_r in Hm. lia.
Qed.

Lemma shl_align_eq_inv (m1 m2 : positive) (e1 e2 : Z) :
  bounded prec emax m1 e1 = true -> bounded prec emax m2 e2 = true ->
  Z.pos (fst (shl_align m1 e1 (Z.min e1 e2))) =
    Z.pos (fst (shl_align m2 e2 (Z.min e1 e2))) ->
  m1 = m2 /\ e1 = e2.
Proof.
  intros H1 H2. rewrite !shl_align_mantissa by lia.
  destruct (Z.le_ge_cases e1 e2) as [Hle|Hle].
  - rewrite Z.min_l, Z.sub_diag, Z.pow_0_r by done. intros Hm.
    apply canonical_unique_le; try done. lia.
  - rewrite Z.min_r, Z.sub_diag, Z.pow_0_r by done. intros Hm.
    destruct (canonical_unique_le m2 m1 e2 e1) as [-> ->]; try done. lia.
Qed.

Lemma SFeqb_finite (s1 s2 : bool) (m1 m2 : positive) (e1 e2 : Z) :
  SFeqb (S754_finite s1 m1 e1) (S754_finite s2 m2 e2) = true <->
  s1 = s2 /\ m1 = m2 /\ e1 = e2.
Proof.
  unfold SFeqb, SFcompare. split.
  - destruct s1, s2; try done;
      destruct (Z.compare_spec e1 e2) as [He|He|He]; try done;
      destruct (Pos.compare_cont Eq m1 m2) eqn:Hc; try done;
      apply Pos.compare_eq in Hc; now subst.
  - intros (-> & -> & ->). rewrite Z.compare_refl.
    change (Pos.compare_cont Eq m2 m2) with (Pos.compare m2 m2).
    rewrite Pos.compare_refl. now destruct s2.
Qed.

(** Subtracting two finite numbers: zero exactly when they are the same
    number, and otherwise neither a zero nor a NaN. *)
Lemma SFsub_finite (s1 s2 : bool) (m1 m2 : positive) (e1 e2 : Z) :
  bounded prec emax m1 e1 = true -> bounded prec emax m2 e2 = true ->
  let r := SF64sub (S754_finite s1 m1 e1) (S754_finite s2 m2 e2) in
  (r = S754_zero false /\ s1 = s2 /\ m1 = m2 /\ e1 = e2) \/
  ((exists s, SF_signed_nonzero s r) /\ ~ (s1 = s2 /\ m1 = m2 /\ e1 = e2)).
Proof.
  intros H1 H2. unfold SF64sub, SFsub. cbv zeta.
  pose proof (bounded_emin _ _ H1). pose proof (bounded_emin _ _ H2).
  pose proof (shl_align_eq_inv m1 m2 e1 e2 H1 H2) as Hinv.
  set (a := fst (shl_align m1 e1 (Z.min e1 e2))) in *.
  set (b := fst (shl_align m2 e2 (Z.min e1 e2))) in *.
  destruct (cond_Zopp s1 (Z.pos a) - cond_Zopp s2 (Z.pos b)) as [|z|z] eqn:Hz;
    unfold binary_normalize.
  - left. split; [done|].
    destruct s1, s2; simpl in Hz; try lia;
      (destruct Hinv as [-> ->]; [lia|done]).
  - right. split.
    + exists false. apply binary_round_signed_nonzero. lia.
    + intros (-> & -> & ->). subst a b. destruct s2; simpl in Hz; lia.
  - right. split.
    + exists true. apply binary_round_signed_nonzero. lia.
    + intros (-> & -> & ->). subst a b. destruct s2; simpl in Hz; lia.
Qed.

Lemma SF_signed_nonzero_eqb_zero (s : bool) (r : spec_float) :
  SF_signed_nonzero s r -> SFeqb r (S754_zero false) = false.
Proof. destruct r as [| | |[]]; simpl; try done; now destruct s0. Qed.

Lemma SF_signed_nonzero_not_nan (s : bool) (r : spec_float) :
  SF_signed_nonzero s r -> SF_is_nan r = false.
Proof. now destruct r. Qed.

Lemma SFsub_eqb_zero (a b : spec_float) :
  valid_binary a = true -> valid_binary b = true ->
  SF_is_nan (SF64sub a b) = false ->
  SFeqb (SF64sub a b) (S754_zero false) = SFeqb a b.
Proof.
  intros Ha Hb.
  destruct a as [sa|sa| |sa ma ea], b as [sb|sb| |sb mb eb];
    try (destruct sa, sb; simpl; done);
    try (destruct sa; simpl; done);
    try (destruct sb; simpl; done); try done.
  simpl in Ha, Hb. intros _.
  destruct (SFsub_finite sa sb ma mb ea eb Ha Hb) as [[-> Heq]|[[s Hs] Hne]].
  - symmetry. now apply SFeqb_finite.
  - rewrite (SF_signed_nonzero_eqb_zero _ _ Hs). symmetry.
    apply not_true_is_false. now intros Heq%SFeqb_finite.
Qed.

Lemma SFsub_is_nan (a b : spec_float) :
  valid_binary a = true -> valid_binary b = true ->
  SF_is_nan (SF64sub a b) =
  SF_is_nan a || SF_is_nan b || (SF_is_infinity a && SFeqb a b).
Proof.
  intros Ha Hb.
  destruct a as [sa|sa| |sa ma ea], b as [sb|sb| |sb mb eb];
    try (destruct sa, sb; simpl; done);
    try (destruct sa; simpl; done);
    try (destruct sb; simpl; done); try done.
  simpl in Ha, Hb.
  destruct (SFsub_finite sa sb ma mb ea eb Ha Hb) as [[-> Heq]|[[s Hs] Hne]].
  - done.
  - now rewrite (SF_signed_nonzero_not_nan _ _ Hs).
Qed.

Lemma SFabs_eqb_zero (r : spec_float) :
  SFeqb (SFabs r) (S754_zero false) = SFeqb r (S754_zero false).
Proof. destruct r as [[]|[]| |[]]; done. Qed.

Lemma SFabs_ltb_zero (r : spec_float) :
  SFltb (SFabs r) (S754_zero false) = false.
Proof. destruct r as [[]|[]| |[]]; done. Qed.

Lemma SFabs_leb_zero (r : spec_float) :
  SFleb (S754_zero false) (SFabs r) = negb (SF_is_nan r).
Proof. destruct r as [[]|[]| |[]]; done. Qed.

Lemma SFabs_is_nan (r : spec_float) : SF_is_nan (SFabs r) = SF_is_nan r.
Proof. now destruct r. Qed.

Lemma SFeqb_refl (r : spec_float) : SFeqb r r = negb (SF_is_nan r).
Proof.
  destruct r as [[]|[]| |[] m e]; try done; unfold SFeqb, SFcompare;
    rewrite Z.compare_refl;
    change (Pos.compare_cont Eq m m) with (Pos.compare m m);
    now rewrite Pos.compare_refl.
Qed.

Lemma SFsub_nonneg_neg (a b : spec_float) :
  valid_binary a = true -> valid_binary b = true ->
  SFleb (S754_zero false) a = true -> SFltb b (S754_zero false) = true ->
  SF_signed_nonzero false (SF64sub a b).
Proof.
  intros Ha Hb.
  destruct a as [sa|sa| |sa ma ea], b as [sb|sb| |sb mb eb];
    try (destruct sa, sb; simpl; done);
    try (destruct sa; simpl; done);
    try (destruct sb; simpl; done); try done.
  simpl in Ha, Hb. destruct sa, sb; try done. intros _ _.
  unfold SF64sub, SFsub. cbv zeta.
  pose proof (bounded_emin _ _ Ha). pose proof (bounded_emin _ _ Hb).
  destruct (cond_Zopp false _ - cond_Zopp true _) as [|z|z] eqn:Hz;
    simpl in Hz; try lia.
  apply binary_round_signed_nonzero. lia.
Qed.

Lemma SFmul_square_signed (a : spec_float) :
  SF_is_nan a = false -> SF_signed false (SF64mul a a).
Proof.
  destruct a as [sa|sa| |sa ma ea]; try done; intros _; simpl.
  - now destruct sa.
  - now destruct sa.
  - replace false with (xorb sa sa) at 1 by now destruct sa.
    now apply binary_round_aux_signed.
Qed.

Lemma SFadd_signed (a b : spec_float) :
  valid_binary a = true -> valid_binary b = true ->
  SF_signed false a -> SF_signed false b -> SF_signed false (SF64add a b).
Proof.
  intros Ha Hb.
  destruct a as [sa|sa| |sa ma ea], b as [sb|sb| |sb mb eb]; simpl;
    try done; try (intros -> ->; done).
  intros -> ->. simpl in Ha, Hb.
  pose proof (bounded_emin _ _ Ha). pose proof (bounded_emin _ _ Hb).
  destruct (cond_Zopp false _ + cond_Zopp false _) as [|z|z] eqn:Hz;
    simpl in Hz; try lia.
  unfold binary_normalize.
  pose proof (binary_round_signed_nonzero false z (Z.min ea eb) ltac:(lia)) as Hs.
  now destruct (binary_round prec emax false z (Z.min ea eb)).
Qed.

Lemma SFsqrt_signed (a : spec_float) :
  SF_signed false a -> SF_signed false (SF64sqrt a).
Proof.
  destruct a as [sa|sa| |sa ma ea]; simpl; try done; try (now intros ->).
  intros ->. unfold SFsqrt_core_binary.
  set (s := ea - 2 * _).
  set (m' := match s with Z.pos _ => Z.shiftl (Z.pos ma) s | 0 => Z.pos ma | Z.neg _ => 0 end).
  assert (Hm' : 0 <= m').
  { unfold m'. destruct s; try lia. now apply Z.shiftl_nonneg. }
  pose proof (Z.sqrtrem_spec m' Hm') as Hq.
  destruct (Z.sqrtrem m') as [q r].
  apply binary_round_aux_signed. lia.
Qed.

Lemma SF_signed_leb_zero (r : spec_float) :
  SF_signed false r -> SFleb (S754_zero false) r = true.
Proof. destruct r as [| | |]; simpl; try done; now intros ->. Qed.

Lemma SF_signed_nonzero_ltb_zero (r : spec_float) :
  SF_signed_nonzero false r -> SFltb (S754_zero false) r = true.
Proof. destruct r as [| | |]; simpl; try done; now intros ->. Qed.

Lemma SFabs_signed_nonzero (r : spec_float) :
  SF_signed_nonzero false r -> SF_signed_nonzero false (SFabs r).
Proof. now destruct r. Qed.

End Rounding.

(** ** Binary64 comparisons *)

Lemma Prim2SF_zero : Prim2SF 0 = S754_zero false.
Proof. reflexivity. Qed.

Lemma leb_zero_not_ltb (f : float) :
  (0 <=? f) = true -> (f <? 0) = false.
Proof.
  rewrite leb_spec, ltb_spec, Prim2SF_zero.
  destruct (Prim2SF f) as [[]|[]| |[] m e]; cbv; congruence.
Qed.

Lemma is_nan_spec (f : float) : is_nan f = SF_is_nan (Prim2SF f).
Proof.
  unfold is_nan. rewrite FloatAxioms.eqb_spec, SFeqb_refl. apply negb_involutive.
Qed.

Lemma Prim2SF_infinity : Prim2SF infinity = S754_infinity false.
Proof. reflexivity. Qed.

Lemma is_infinity_spec (f : float) :
  is_infinity f = SF_is_infinity (Prim2SF f).
Proof.
  unfold is_infinity. rewrite FloatAxioms.eqb_spec, abs_spec, Prim2SF_infinity.
  destruct (Prim2SF f) as [[]|[]| |[]]; done.
Qed.


(** [|m - t|] is never negative. *)
Lemma abs_sub_not_negative (m t : float) : (abs (m - t) <? 0) = false.
Proof. rewrite ltb_spec, abs_spec, Prim2SF_zero. apply SFabs_ltb_zero. Qed.

(** [|m - t|] is NaN exactly when [m] or [t] is, or when they are the same
    infinity. *)
Lemma abs_sub_is_nan (m t : float) :
  is_nan (abs (m - t)) =
  is_nan m || is_nan t || (is_infinity m && (m =? t)).
Proof.
  rewrite !is_nan_spec, is_infinity_spec, FloatAxioms.eqb_spec, abs_spec, sub_spec.
  rewrite SFabs_is_nan. apply SFsub_is_nan; apply Prim2SF_valid.
Qed.

(** When it is not NaN, [|m - t|] is at least zero, and zero exactly when
    [m == t]. *)
Lemma abs_sub_not_nan (m t : float) :
  is_nan (abs (m - t)) = false ->
  (0 <=? abs (m - t)) = true /\ (abs (m - t) =? 0) = (m =? t).
Proof.
  rewrite is_nan_spec, leb_spec, !FloatAxioms.eqb_spec, abs_spec, sub_spec, Prim2SF_zero.
  rewrite SFabs_is_nan, SFabs_leb_zero, SFabs_eqb_zero. intros Hn.
  split; [now rewrite Hn|].
  apply SFsub_eqb_zero; try apply Prim2SF_valid. done.
Qed.

(** The magnitude [sqrt(dx*dx + dy*dy)] is at least zero as soon as neither
    component is NaN. *)
Lemma sqrt_sum_squares_nonneg (dx dy : float) :
  is_nan dx = false -> is_nan dy = false ->
  (0 <=? sqrt (dx * dx + dy * dy)) = true.
Proof.
  rewrite !is_nan_spec. intros Hx Hy.
  rewrite leb_spec, sqrt_spec, add_spec, !mul_spec, Prim2SF_zero.
  apply SF_signed_leb_zero, SFsqrt_signed.
  rewrite <- !mul_spec.
  apply SFadd_signed; try apply Prim2SF_valid;
    rewrite mul_spec; now apply SFmul_square_signed.
Qed.

(** A measured value that is at least zero is at a positive distance from a
    negative target. *)
Lemma abs_sub_negative_target (m d : float) :
  (0 <=? m) = true -> (d <? 0) = true -> (0 <? abs (m - d)) = true.
Proof.
  rewrite leb_spec, !ltb_spec, abs_spec, sub_spec, Prim2SF_zero.
  intros Hm Hd.
  apply SF_signed_nonzero_ltb_zero, SFabs_signed_nonzero.
  apply SFsub_nonneg_neg; try apply Prim2SF_valid; done.
Qed.

Lemma is_finite_spec (f : float) :
  is_finite f = negb (SF_is_nan (Prim2SF f) || SF_is_infinity (Prim2SF f)).
Proof. unfold is_finite. now rewrite is_nan_spec, is_infinity_spec. Qed.

(** The difference of two finite numbers is not NaN. *)
Lemma sub_finite_not_nan (a b : float) :
  is_finite a = true -> is_finite b = true -> is_nan (a - b) = false.
Proof.
  rewrite !is_finite_spec, is_nan_spec, sub_spec.
  rewrite SFsub_is_nan by apply Prim2SF_valid.
  destruct (Prim2SF a), (Prim2SF b); simpl; try done.
Qed.

(** ** [points] and [params] *)

Lemma foldl_app_concat (l : list Point) (ls : list (list Point)) :
  foldl app l ls = l ++ concat ls.
Proof.
  revert l. induction ls as [|k ls IH]; intros l; simpl.
  - now rewrite app_nil_r.
  - now rewrite IH, <- app_assoc.
Qed.

Lemma reduce_add_concat (ls : list (list Point)) :
  ls ≠ [] -> reduce_add ls = Ok (concat ls).
Proof.
  destruct ls as [|l ls]; [done|]. intros _. simpl.
  now rewrite foldl_app_concat.
Qed.

Lemma first_seen_elem_of (l : list Param) (p : Param) :
  p ∈ first_seen l <-> p ∈ l.
Proof.
  induction l as [|q l IH]; simpl; [done|].
  rewrite !elem_of_cons, list_elem_of_filter, IH.
  destruct (decide (p = q)); tauto.
Qed.

Lemma first_seen_NoDup (l : list Param) : NoDup (first_seen l).
Proof.
  induction l as [|q l IH]; simpl; [constructor|].
  constructor; [|now apply NoDup_filter].
  rewrite list_elem_of_filter. now intros [Hq _].
Qed.

Lemma params_loop_coordinates (acc : list Param) (pts : list Point) :
  foldl params_step acc pts = foldl append_if_absent acc (coordinates pts).
Proof.
  revert acc. induction pts as [|pt pts IH]; intros acc; [done|].
  unfold coordinates. rewrite bind_cons. simpl. apply IH.
Qed.

(** The loop appends to what it was given the first occurrences of the
    Parameters that are not there yet. *)
Lemma foldl_append_if_absent (acc l : list Param) :
  foldl append_if_absent acc l =
  acc ++ filter (fun p => p ∉ acc) (first_seen l).
Proof.
  revert acc. induction l as [|q l IH]; intros acc; simpl.
  - now rewrite app_nil_r.
  - rewrite IH. unfold append_if_absent. destruct (decide (q ∈ acc)) as [Hq|Hq].
    + rewrite filter_cons_False by tauto. f_equal.
      rewrite list_filter_filter. apply list_filter_iff. intros p.
      cbv beta. split; [|tauto]. intros Hp. split; [done|]. now intros ->.
    + rewrite filter_cons_True by done. rewrite <- app_assoc. simpl.
      do 2 f_equal. rewrite list_filter_filter. apply list_filter_iff.
      intros p. cbv beta.
      rewrite not_elem_of_app, list_elem_of_singleton. tauto.
Qed.

Lemma params_loop_first_seen (pts : list Point) :
  params_loop pts = first_seen (coordinates pts).
Proof.
  unfold params_loop.
  rewrite params_loop_coordinates, foldl_append_if_absent. simpl.
  induction (first_seen (coordinates pts)) as [|p l IH]; [done|].
  rewrite filter_cons_True by apply not_elem_of_nil. now f_equal.
Qed.

Lemma params_step_fresh (acc : list Param) (pt : Point) :
  x pt ∉ acc -> y pt ∉ acc -> x pt ≠ y pt ->
  params_step acc pt = acc ++ [x pt; y pt].
Proof.
  intros Hx Hy Hxy. unfold params_step.
  unfold append_if_absent at 2. rewrite decide_False by done.
  unfold append_if_absent. rewrite decide_False.
  - now rewrite <- app_assoc.
  - rewrite not_elem_of_app, list_elem_of_singleton. split; congruence.
Qed.

(** A point both of whose Parameters are new contributes them next to each
    other, after the Parameters of the points before it. *)
Lemma params_loop_fresh_point (pre post : list Point) (pt : Point) :
  x pt ∉ coordinates pre -> y pt ∉ coordinates pre -> x pt ≠ y pt ->
  exists rest,
    params_loop (pre ++ pt :: post) = params_loop pre ++ x pt :: y pt :: rest.
Proof.
  intros Hx Hy Hxy. unfold params_loop at 1.
  rewrite foldl_app. fold (params_loop pre). simpl.
  rewrite params_loop_coordinates, foldl_append_if_absent.
  rewrite <- first_seen_elem_of, <- params_loop_first_seen in Hx, Hy.
  rewrite params_step_fresh by done.
  rewrite <- !app_assoc. simpl. eauto.
Qed.

Lemma abs_sub_error_invariant (m t : float) :
  error_invariant m t (abs (m - t)).
Proof.
  split; [apply abs_sub_not_negative|].
  split; [apply abs_sub_is_nan | apply abs_sub_not_nan].
Qed.

Lemma is_nan_not_positive (e : float) : is_nan e = true -> (0 <? e) = false.
Proof.
  rewrite is_nan_spec, ltb_spec. now destruct (Prim2SF e).
Qed.

Lemma sqrt_sum_squares_nan (dx dy : float) :
  is_nan dx || is_nan dy = true -> is_nan (sqrt (dx * dx + dy * dy)) = true.
Proof.
  rewrite !is_nan_spec, sqrt_spec, add_spec, !mul_spec.
  intros [Hx|Hy]%orb_true_iff.
  - now destruct (Prim2SF dx).
  - destruct (Prim2SF dy); try done.
    now destruct (SF64mul (Prim2SF dx) (Prim2SF dx)).
Qed.

(** ** The length setter *)

Lemma length_setter_value_accepts (v : pyvalue) (f : float) :
  py_float v = Ok f -> (f <? 0) = false -> length_setter_value v = Ok f.
Proof.
  intros Hv Hf. unfold length_setter_value. rewrite Hv. simpl. now rewrite Hf.
Qed.

Lemma length_setter_value_rejects (v : pyvalue) (f : float) :
  py_float v = Ok f -> (f <? 0) = true ->
  length_setter_value v = Raise (ValueError "Length must be >= 0").
Proof.
  intros Hv Hf. unfold length_setter_value. rewrite Hv. simpl. now rewrite Hf.
Qed.

Lemma length_setter_value_raises_iff (v : pyvalue) :
  length_setter_value v = Raise (ValueError "Length must be >= 0") <->
  exists f, py_float v = Ok f /\ (f <? 0) = true.
Proof.
  unfold length_setter_value. split.
  - destruct (py_float v) as [f|e] eqn:Hv; simpl.
    + destruct (f <? 0) eqn:Hf; [eauto|done].
    + destruct v as [f|z|]; simpl in Hv; [done| |congruence].
      unfold int_to_float in Hv.
      destruct (is_infinity _) in Hv; congruence.
  - intros (f & -> & Hf). simpl. now rewrite Hf.
Qed.

(** ** The error of a constructed [AngularConstraint] *)

Lemma AngularConstraint_error_init
    (angle_between : pstate -> Line -> Line -> result float)
    (st : pstate) (la lb : Line) (A : float) :
  AngularConstraint_error angle_between st (AngularConstraint_init la lb A) =
  (m ← angle_between st la lb; Ok (abs (m - A))).
Proof. reflexivity. Qed.

(** * The claims *)

(** C1. For every line and every length [L >= 0] (the float of the value
    passed), [LineLengthConstraint(line, L)] is constructed and its [error()]
    is the absolute difference between the Euclidean length of the line,
    [sqrt(dx*dx + dy*dy)] on the current values, and [L].  For the line from
    (0,0) to (3,4) the error is 0.0 for the length 5 and 1.0 for the
    length 4. *)
Theorem LineLengthConstraint_error_abs_difference :
  (forall (st : pstate) (line : Line) (v : pyvalue) (L : float),
     py_float v = Ok L -> (0 <=? L) = true ->
     exists c,
       LineLengthConstraint_init line v = Ok c /\
       let dx := st (x (end_ line)) - st (x (start line)) in
       let dy := st (y (end_ line)) - st (y (start line)) in
       error st c = Ok (abs (sqrt (dx * dx + dy * dy) - L))) /\
  (c ← LineLengthConstraint_init line_3_4 (PyInt 5); error state_3_4 c)
    = Ok 0 /\
  (c ← LineLengthConstraint_init line_3_4 (PyFloat 5); error state_3_4 c)
    = Ok 0 /\
  (c ← LineLengthConstraint_init line_3_4 (PyInt 4); error state_3_4 c)
    = Ok 1 /\
  (c ← LineLengthConstraint_init line_3_4 (PyFloat 4); error state_3_4 c)
    = Ok 1.
Proof.
  split; [|repeat split; vm_compute; reflexivity].
  intros st line v L Hv HL. eexists. split.
  - unfold LineLengthConstraint_init.
    rewrite (length_setter_value_accepts v L Hv (leb_zero_not_ltb L HL)).
    reflexivity.
  - reflexivity.
Qed.

Lemma LineLengthConstraint_error_abs_difference_witness :
  py_float (PyInt 5) = Ok 5 /\ (0 <=? 5) = true /\
  exists c,
    LineLengthConstraint_init line_3_4 (PyInt 5) = Ok c /\
    let dx := state_3_4 (x (end_ line_3_4)) - state_3_4 (x (start line_3_4)) in
    let dy := state_3_4 (y (end_ line_3_4)) - state_3_4 (y (start line_3_4)) in
    error state_3_4 c = Ok (abs (sqrt (dx * dx + dy * dy) - 5)).
Proof.
  split; [vm_compute; reflexivity|]. split; [reflexivity|].
  apply (proj1 LineLengthConstraint_error_abs_difference
           state_3_4 line_3_4 (PyInt 5) 5);
    [vm_compute; reflexivity | reflexivity].
Defined.

Section AngularClaims.

Variable angle_between : pstate -> Line -> Line -> result float.

(** C2. When [angle_between] returns [m] for the two lines,
    [AngularConstraint(line_a, line_b, A).error()] is the plain absolute
    difference [|m - A|]: nothing is reduced modulo 360, and a measured
    angle of 350 against a target of 10 gives 340, not 20. *)
Theorem AngularConstraint_error_no_wraparound :
  (forall (st : pstate) (la lb : Line) (A m : float),
     angle_between st la lb = Ok m ->
     AngularConstraint_error angle_between st (AngularConstraint_init la lb A)
       = Ok (abs (m - A))) /\
  (forall (st : pstate) (la lb : Line),
     angle_between st la lb = Ok 350 ->
     AngularConstraint_error angle_between st (AngularConstraint_init la lb 10)
       = Ok 340 /\
     AngularConstraint_error angle_between st (AngularConstraint_init la lb 10)
       <> Ok 20).
Proof.
  assert (H : forall st la lb A m, angle_between st la lb = Ok m ->
    AngularConstraint_error angle_between st (AngularConstraint_init la lb A)
      = Ok (abs (m - A))).
  { intros st la lb A m Hm. unfold AngularConstraint_error. simpl.
    now rewrite Hm. }
  split; [exact H|].
  intros st la lb Hm. rewrite (H st la lb 10 350 Hm).
  split; [reflexivity|]. intros Heq.
  apply (f_equal (fun r => match r with Ok f => f =? 20 | Raise _ => true end))
    in Heq.
  vm_compute in Heq. discriminate.
Qed.

End AngularClaims.

Lemma AngularConstraint_error_no_wraparound_witness :
  (fun _ _ _ => Ok 350) state_3_4 line_3_4 line_3_4 = Ok 350 /\
  AngularConstraint_error (fun _ _ _ => Ok 350) state_3_4
    (AngularConstraint_init line_3_4 line_3_4 10) = Ok 340.
Proof.
  split; [reflexivity|].
  apply (proj2 (AngularConstraint_error_no_wraparound (fun _ _ _ => Ok 350))
           state_3_4 line_3_4 line_3_4 eq_refl).
Defined.

(** C3. A value whose float conversion [f] is strictly negative makes both
    the constructor and the assignment of [length] raise the validation
    error at once: nothing is clamped and no constraint is built.  A value
    with [f >= 0], zero included, is accepted and [f] is stored.  So
    [LineLengthConstraint(line, -1)] fails and a length of 0 is legal. *)
Theorem LineLengthConstraint_length_validation
    (line : Line) (self : LineLengthConstraint) (v : pyvalue) (f : float) :
  py_float v = Ok f ->
  ((f <? 0) = true ->
     LineLengthConstraint_init line v
       = Raise (ValueError "Length must be >= 0") /\
     LineLengthConstraint_set_length self v
       = Raise (ValueError "Length must be >= 0")) /\
  ((0 <=? f) = true ->
     LineLengthConstraint_init line v
       = Ok {| LineLengthConstraint_primitives := [PrimLine line];
               _length := f |} /\
     LineLengthConstraint_set_length self v
       = Ok {| LineLengthConstraint_primitives :=
                 LineLengthConstraint_primitives self;
               _length := f |}) /\
  LineLengthConstraint_init line (PyInt (-1))
    = Raise (ValueError "Length must be >= 0") /\
  LineLengthConstraint_init line (PyInt 0)
    = Ok {| LineLengthConstraint_primitives := [PrimLine line];
            _length := 0 |}.
Proof.
  intros Hv. split; [|split; [|split; vm_compute; reflexivity]].
  - intros Hneg.
    unfold LineLengthConstraint_init, LineLengthConstraint_set_length.
    now rewrite (length_setter_value_rejects v f Hv Hneg).
  - intros Hpos.
    unfold LineLengthConstraint_init, LineLengthConstraint_set_length.
    now rewrite (length_setter_value_accepts v f Hv (leb_zero_not_ltb f Hpos)).
Qed.

Lemma LineLengthConstraint_length_validation_witness :
  py_float (PyFloat (-1)) = Ok (-1) /\ (-1 <? 0) = true /\
  LineLengthConstraint_init line_3_4 (PyFloat (-1))
    = Raise (ValueError "Length must be >= 0").
Proof.
  split; [reflexivity|]. split; [reflexivity|].
  exact (proj1 (proj1 (LineLengthConstraint_length_validation line_3_4
           {| LineLengthConstraint_primitives := [PrimLine line_3_4];
              _length := 5 |}
           (PyFloat (-1)) (-1) eq_refl) eq_refl)).
Defined.

(** C4. For every two points and every target [D],
    [PointToPointDistanceConstraint(point_a, point_b, D).error()] is the
    absolute difference between the Euclidean distance of the points,
    [sqrt(dx*dx + dy*dy)] on the current values, and [D].  For the points
    (0,0) and (1,1) and the target [sqrt(2)] the error is 0.0. *)
Theorem PointToPointDistanceConstraint_error_abs_difference :
  (forall (st : pstate) (a b : Point) (D : float),
     let dx := st (x a) - st (x b) in
     let dy := st (y a) - st (y b) in
     error st (PointToPointDistanceConstraint_init a b D)
       = Ok (abs (sqrt (dx * dx + dy * dy) - D))) /\
  error state_1_1
    (PointToPointDistanceConstraint_init (point_at 0) (point_at 2) (sqrt 2))
    = Ok 0.
Proof. split; [reflexivity | vm_compute; reflexivity]. Qed.

(** C5, as the code has it.  The error of each of the three constraints is
    [|m - t|] for the measured quantity [m] and the stored target [t] (for an
    [AngularConstraint], when [angle_between] returns [m]).  It is never
    negative.  It is NaN exactly when [m] or [t] is NaN or both are the same
    infinity; in every other state it is at least zero, and it is zero
    exactly when [m == t]. *)
Theorem error_nonnegative_zero_iff_equal :
  (forall (st : pstate) (line : Line) (v : pyvalue) (c : LineLengthConstraint),
     LineLengthConstraint_init line v = Ok c ->
     let m := Line_hypot st line in
     let t := LineLengthConstraint_length c in
     error st c = Ok (abs (m - t)) /\ error_invariant m t (abs (m - t)))
  /\
  (forall (st : pstate) (a b : Point) (d : float),
     let m := Vec_abs (Point_sub st a b) in
     error st (PointToPointDistanceConstraint_init a b d) = Ok (abs (m - d)) /\
     error_invariant m d (abs (m - d)))
  /\
  (forall (angle_between : pstate -> Line -> Line -> result float)
          (st : pstate) (la lb : Line) (A m : float),
     angle_between st la lb = Ok m ->
     AngularConstraint_error angle_between st (AngularConstraint_init la lb A)
       = Ok (abs (m - A)) /\
     error_invariant m A (abs (m - A))).
Proof.
  split; [|split].
  - intros st line v c Hc m t. split; [|apply abs_sub_error_invariant].
    unfold LineLengthConstraint_init in Hc.
    destruct (length_setter_value v) as [l|]; simpl in Hc; [|done].
    now injection Hc as <-.
  - intros st a b d m. split; [reflexivity|apply abs_sub_error_invariant].
  - intros ab st la lb A m Hm. split; [|apply abs_sub_error_invariant].
    unfold AngularConstraint_error. simpl. now rewrite Hm.
Qed.

Lemma error_nonnegative_zero_iff_equal_witness :
  LineLengthConstraint_init line_3_4 (PyInt 5)
    = Ok {| LineLengthConstraint_primitives := [PrimLine line_3_4];
            _length := 5 |} /\
  error state_3_4
    {| LineLengthConstraint_primitives := [PrimLine line_3_4];
       _length := 5 |}
    = Ok (abs (Line_hypot state_3_4 line_3_4 - 5)) /\
  error_invariant (Line_hypot state_3_4 line_3_4) 5
    (abs (Line_hypot state_3_4 line_3_4 - 5)).
Proof.
  split; [vm_compute; reflexivity|].
  apply (proj1 error_nonnegative_zero_iff_equal state_3_4 line_3_4 (PyInt 5)).
  vm_compute; reflexivity.
Defined.

(** A [LineLengthConstraint] with a NaN length is constructed, and its
    error is then not at least zero. *)
Lemma error_nan_target_not_nonnegative :
  (c ← LineLengthConstraint_init line_3_4 (PyFloat nan);
   e ← error state_3_4 c;
   Ok (0 <=? e)) = Ok false.
Proof. vm_compute. reflexivity. Qed.

(** C6. For every constraint (with at least one primitive, so that [points]
    returns), [params] is the list of the Parameters of its points in
    first-seen order: it has no duplicate object, it holds exactly the x- and
    y-Parameters of the points, and a point met with both Parameters new (and
    distinct) has its x-Parameter immediately before its y-Parameter, after
    the Parameters of the points before it.  Nothing is asked of the points:
    they may repeat, as when two primitives share a Point. *)
Theorem params_first_seen_no_duplicates `{AbstractConstraint C} (self : C) :
  primitives self ≠ [] ->
  let pts := concat (map Primitive_points (primitives self)) in
  exists ps,
    params self = Ok ps /\
    ps = first_seen (coordinates pts) /\
    NoDup ps /\
    (forall p, p ∈ ps <-> exists pt, pt ∈ pts /\ (p = x pt \/ p = y pt)) /\
    (forall pre pt post,
       pts = pre ++ pt :: post ->
       x pt ∉ coordinates pre -> y pt ∉ coordinates pre -> x pt ≠ y pt ->
       exists rest,
         ps = first_seen (coordinates pre) ++ x pt :: y pt :: rest).
Proof.
  intros Hne pts. exists (params_loop pts).
  split.
  { unfold params, points. rewrite reduce_add_concat; [done|].
    now destruct (primitives self). }
  split; [apply params_loop_first_seen|].
  rewrite params_loop_first_seen.
  split; [apply first_seen_NoDup|]. split.
  - intros p. rewrite first_seen_elem_of. unfold coordinates.
    rewrite list_elem_of_bind. split.
    + intros (pt & Hp & Hpt). exists pt. split; [done|].
      rewrite !elem_of_cons, elem_of_nil in Hp. tauto.
    + intros (pt & Hpt & Hp). exists pt. split; [|done].
      rewrite !elem_of_cons. tauto.
  - intros pre pt post Hsplit Hx Hy Hxy. rewrite Hsplit.
    rewrite <- !params_loop_first_seen.
    now apply params_loop_fresh_point.
Qed.

Lemma params_first_seen_no_duplicates_witness :
  primitives (PointToPointDistanceConstraint_init (point_at 0) (point_at 0) 1)
    ≠ [] /\
  exists ps,
    params (PointToPointDistanceConstraint_init (point_at 0) (point_at 0) 1)
      = Ok ps /\
    ps = [0; 1]%nat /\ NoDup ps.
Proof.
  assert (Hne : primitives
            (PointToPointDistanceConstraint_init (point_at 0) (point_at 0) 1)
            ≠ []) by discriminate.
  split; [exact Hne|].
  destruct (params_first_seen_no_duplicates
              (PointToPointDistanceConstraint_init (point_at 0) (point_at 0) 1)
              Hne)
    as (ps & Hps & Heq & Hnd & _).
  exists ps. split; [exact Hps|]. split; [exact Heq | exact Hnd].
Defined.

(** C7. For every constraint whose list of primitives is not empty,
    [points] is the concatenation of the [points] lists of the primitives,
    in the order of the primitives and, within a primitive, in the order of
    its points; nothing is removed, so a Point shared by two primitives
    occurs twice. *)
Theorem points_concatenation `{AbstractConstraint C} (self : C) :
  primitives self ≠ [] ->
  points self = Ok (concat (map Primitive_points (primitives self))).
Proof.
  intros Hne. unfold points. apply reduce_add_concat.
  now destruct (primitives self).
Qed.

Lemma points_concatenation_witness :
  primitives (PointToPointDistanceConstraint_init (point_at 0) (point_at 0) 1)
    ≠ [] /\
  points (PointToPointDistanceConstraint_init (point_at 0) (point_at 0) 1)
    = Ok [point_at 0; point_at 0].
Proof.
  assert (Hne : primitives
            (PointToPointDistanceConstraint_init (point_at 0) (point_at 0) 1)
            ≠ []) by discriminate.
  split; [exact Hne|].
  exact (points_concatenation
           (PointToPointDistanceConstraint_init (point_at 0) (point_at 0) 1)
           Hne).
Defined.

(** Two lines that share their middle point: the point is listed twice by
    [points], its Parameters once by [params]. *)
Example shared_point_points_params
    (angle_between : pstate -> Line -> Line -> result float) (A : float) :
  let c := {| AngularConstraint_primitives := shared_lines; angle := A |} in
  let H := AngularConstraint_constraint angle_between in
  points c = Ok [point_at 0; point_at 2; point_at 2; point_at 4] /\
  params c = Ok [0; 1; 2; 3; 4; 5]%nat.
Proof. split; reflexivity. Qed.

Lemma positive_not_nan (e : float) : (0 <? e) = true -> is_nan e = false.
Proof.
  rewrite is_nan_spec, ltb_spec. now destruct (Prim2SF e).
Qed.

(** C8, as the code has it.  [PointToPointDistanceConstraint] stores a
    negative distance as it is given: the constructor checks nothing and
    cannot fail.  The error of such a constraint is strictly positive in
    every state in which neither coordinate difference is NaN, in particular
    whenever the four coordinates are finite; when a difference is NaN the
    error is NaN. *)
Theorem negative_distance_accepted_error_positive
    (st : pstate) (a b : Point) (d : float) :
  (d <? 0) = true ->
  let dx := st (x a) - st (x b) in
  let dy := st (y a) - st (y b) in
  let e := abs (sqrt (dx * dx + dy * dy) - d) in
  distance (PointToPointDistanceConstraint_init a b d) = d /\
  error st (PointToPointDistanceConstraint_init a b d) = Ok e /\
  (0 <? e) = negb (is_nan dx || is_nan dy) /\
  is_nan e = is_nan dx || is_nan dy /\
  (is_finite (st (x a)) = true -> is_finite (st (y a)) = true ->
   is_finite (st (x b)) = true -> is_finite (st (y b)) = true ->
   (0 <? e) = true).
Proof.
  intros Hd dx dy e. split; [reflexivity|]. split; [reflexivity|].
  assert (Hpos : is_nan dx = false -> is_nan dy = false -> (0 <? e) = true).
  { intros Hx Hy. apply abs_sub_negative_target; [|done].
    now apply sqrt_sum_squares_nonneg. }
  assert (Hnan : is_nan dx || is_nan dy = true -> is_nan e = true).
  { intros Hxy. unfold e. rewrite abs_sub_is_nan.
    now rewrite (sqrt_sum_squares_nan dx dy Hxy). }
  split; [|split].
  - destruct (is_nan dx || is_nan dy) eqn:Hxy; simpl.
    + now apply is_nan_not_positive, Hnan.
    + apply orb_false_iff in Hxy as [Hx Hy]. now apply Hpos.
  - destruct (is_nan dx || is_nan dy) eqn:Hxy.
    + now apply Hnan.
    + apply orb_false_iff in Hxy as [Hx Hy]. now apply positive_not_nan, Hpos.
  - intros Hxa Hya Hxb Hyb. apply Hpos; now apply sub_finite_not_nan.
Qed.

Lemma negative_distance_accepted_error_positive_witness :
  (-1 <? 0) = true /\
  error state_1_1
    (PointToPointDistanceConstraint_init (point_at 0) (point_at 2) (-1))
    = Ok (abs (sqrt ((0 - 1) * (0 - 1) + (0 - 1) * (0 - 1)) - -1)) /\
  (0 <? abs (sqrt ((0 - 1) * (0 - 1) + (0 - 1) * (0 - 1)) - -1)) = true.
Proof.
  split; [reflexivity|].
  destruct (negative_distance_accepted_error_positive
              state_1_1 (point_at 0) (point_at 2) (-1) eq_refl)
    as (_ & He & _ & _ & Hfin).
  split; [exact He|]. apply Hfin; reflexivity.
Defined.

(** With a NaN coordinate the error of a constraint whose distance is
    negative is not strictly positive. *)
Lemma negative_distance_nan_state_not_positive :
  (e ← error (state_of [nan; 0; 0; 0])
         (PointToPointDistanceConstraint_init (point_at 0) (point_at 2) (-1));
   Ok (0 <? e)) = Ok false.
Proof. vm_compute. reflexivity. Qed.

Section Unguarded.

Variable angle_between : pstate -> Line -> Line -> result float.

(** X11. [AngularConstraint.error()] has no guard of its own.  An exception
    raised by [angle_between] comes out of [error()] unchanged; and when
    [angle_between] returns NaN, [error()] returns NaN and not a finite
    value. *)
Theorem AngularConstraint_error_unguarded
    (st : pstate) (la lb : Line) (A : float) :
  (forall e : exn,
     angle_between st la lb = Raise e ->
     AngularConstraint_error angle_between st (AngularConstraint_init la lb A)
       = Raise e) /\
  (forall m : float,
     angle_between st la lb = Ok m -> is_nan m = true ->
     exists r,
       AngularConstraint_error angle_between st
         (AngularConstraint_init la lb A) = Ok r /\
       is_nan r = true /\ is_finite r = false).
Proof.
  split.
  - intros e He. unfold AngularConstraint_error. simpl. now rewrite He.
  - intros m Hm Hnan. eexists. split.
    + unfold AngularConstraint_error. simpl. now rewrite Hm.
    + assert (Hr : is_nan (abs (m - A)) = true)
        by now rewrite abs_sub_is_nan, Hnan.
      split; [exact Hr|]. unfold is_finite. now rewrite Hr.
Qed.

End Unguarded.

Lemma AngularConstraint_error_unguarded_witness :
  (fun _ _ _ => @Raise float ZeroDivisionError) state_degenerate degenerate_line
    unit_line = Raise ZeroDivisionError /\
  AngularConstraint_error (fun _ _ _ => @Raise float ZeroDivisionError)
    state_degenerate (AngularConstraint_init degenerate_line unit_line 90)
  = Raise ZeroDivisionError.
Proof.
  split; [reflexivity|].
  exact (proj1 (AngularConstraint_error_unguarded
                  (fun _ _ _ => @Raise float ZeroDivisionError)
                  state_degenerate degenerate_line unit_line 90)
           ZeroDivisionError eq_refl).
Defined.

(** C10. The [length] setter, and with it the constructor, raises its
    validation error if and only if the float of the value is [< 0].  NaN
    compares false against [< 0], so a NaN length is accepted and stored: a
    [LineLengthConstraint] whose length is NaN can be constructed. *)
Theorem LineLengthConstraint_length_rejects_iff_negative :
  (forall (self : LineLengthConstraint) (v : pyvalue),
     LineLengthConstraint_set_length self v
       = Raise (ValueError "Length must be >= 0") <->
     exists f, py_float v = Ok f /\ (f <? 0) = true) /\
  (forall (line : Line) (v : pyvalue),
     LineLengthConstraint_init line v
       = Raise (ValueError "Length must be >= 0") <->
     exists f, py_float v = Ok f /\ (f <? 0) = true) /\
  (nan <? 0) = false /\
  (forall self : LineLengthConstraint,
     LineLengthConstraint_set_length self (PyFloat nan)
       = Ok {| LineLengthConstraint_primitives :=
                 LineLengthConstraint_primitives self;
               _length := nan |}) /\
  (forall line : Line,
     LineLengthConstraint_init line (PyFloat nan)
       = Ok {| LineLengthConstraint_primitives := [PrimLine line];
               _length := nan |}).
Proof.
  repeat split; try reflexivity.
  - intros Hr. apply length_setter_value_raises_iff.
    unfold LineLengthConstraint_set_length in Hr.
    destruct (length_setter_value v); simpl in Hr; congruence.
  - intros Hf%length_setter_value_raises_iff.
    unfold LineLengthConstraint_set_length. now rewrite Hf.
  - intros Hr. apply length_setter_value_raises_iff.
    unfold LineLengthConstraint_init in Hr.
    destruct (length_setter_value v); simpl in Hr; congruence.
  - intros Hf%length_setter_value_raises_iff.
    unfold LineLengthConstraint_init. now rewrite Hf.
Qed.

(** * Further properties of the constraint classes *)

(** ** The primitives, the points and the Parameters *)

Lemma points_concat `{AbstractConstraint C} (self : C) (pts : list Point) :
  points self = Ok pts ->
  primitives self ≠ [] /\
  pts = concat (map Primitive_points (primitives self)).
Proof.
  unfold points. destruct (primitives self) as [|prim prims]; [done|].
  simpl. rewrite foldl_app_concat. intros [= <-]. done.
Qed.

Lemma params_params_loop `{AbstractConstraint C} (self : C) (ps : list Param) :
  params self = Ok ps ->
  primitives self ≠ [] /\
  ps = params_loop (concat (map Primitive_points (primitives self))).
Proof.
  unfold params. destruct (points self) as [pts|e] eqn:Hpts; [|done].
  apply points_concat in Hpts as [Hne ->]. simpl. intros [= <-]. done.
Qed.

Lemma params_of_nonempty `{AbstractConstraint C} (self : C) :
  primitives self ≠ [] ->
  params self =
  Ok (params_loop (concat (map Primitive_points (primitives self)))).
Proof.
  intros Hne. unfold params, points. now rewrite reduce_add_concat by
    (now destruct (primitives self)).
Qed.

Lemma elem_of_concat_map (prims : list Primitive) (pt : Point) :
  pt ∈ concat (map Primitive_points prims) <->
  exists prim, prim ∈ prims /\ pt ∈ Primitive_points prim.
Proof.
  induction prims as [|prim prims IH]; simpl.
  - split; [now intros ?%elem_of_nil|]. now intros (? & ?%elem_of_nil & _).
  - rewrite elem_of_app, IH. split.
    + intros [Hpt|(prim' & Hin & Hpt)].
      * exists prim. split; [left|done].
      * exists prim'. split; [now right|done].
    + intros (prim' & Hin & Hpt). apply elem_of_cons in Hin as [->|Hin].
      * now left.
      * right. eauto.
Qed.

Lemma elem_of_coordinates (pts : list Point) (p : Param) :
  p ∈ coordinates pts <-> exists pt, pt ∈ pts /\ (p = x pt \/ p = y pt).
Proof.
  unfold coordinates. rewrite list_elem_of_bind. split.
  - intros (pt & Hp & Hpt). exists pt. split; [done|].
    rewrite !elem_of_cons, elem_of_nil in Hp. tauto.
  - intros (pt & Hpt & Hp). exists pt. split; [|done].
    rewrite !elem_of_cons. tauto.
Qed.

(** The Parameters of every point of every primitive are in [params]. *)
Lemma params_covers_primitive `{AbstractConstraint C}
    (self : C) (ps : list Param) (prim : Primitive) (pt : Point) :
  params self = Ok ps -> prim ∈ primitives self ->
  pt ∈ Primitive_points prim -> x pt ∈ ps /\ y pt ∈ ps.
Proof.
  intros [_ ->]%params_params_loop Hprim Hpt.
  rewrite params_loop_first_seen, !first_seen_elem_of, !elem_of_coordinates.
  assert (Hin : pt ∈ concat (map Primitive_points (primitives self)))
    by (apply elem_of_concat_map; eauto).
  split; exists pt; tauto.
Qed.

Lemma first_seen_length (l : list Param) :
  (length (first_seen l) <= length l)%nat.
Proof.
  induction l as [|p l IH]; simpl; [done|].
  pose proof (length_filter (fun q => q ≠ p) (first_seen l)). lia.
Qed.

Lemma coordinates_length (pts : list Point) :
  length (coordinates pts) = (2 * length pts)%nat.
Proof.
  unfold coordinates. induction pts as [|pt pts IH]; [done|].
  rewrite bind_cons. simpl. simpl in IH. rewrite IH. lia.
Qed.

Lemma concat_points_length (prims : list Primitive) :
  (length prims <= length (concat (map Primitive_points prims)))%nat /\
  (length (concat (map Primitive_points prims)) <= 2 * length prims)%nat.
Proof.
  induction prims as [|prim prims IH]; simpl; [lia|].
  rewrite length_app. destruct prim; simpl; lia.
Qed.

(** X1. [points] and [params] fail exactly on a constraint without
    primitives, and then with the [TypeError] of [reduce] on an empty
    list; no other exception leaves them. *)
Theorem points_params_raise_iff_no_primitives
    `{AbstractConstraint C} (self : C) :
  (forall e, points self = Raise e <-> primitives self = [] /\ e = TypeError)
  /\
  (forall e, params self = Raise e <-> primitives self = [] /\ e = TypeError).
Proof.
  assert (Hpoints : forall e,
    points self = Raise e <-> primitives self = [] /\ e = TypeError).
  { intros e. unfold points.
    destruct (primitives self) as [|prim prims]; simpl.
    - split; [now intros [= <-]|now intros [_ ->]].
    - split; [done|now intros [? _]]. }
  split; [exact Hpoints|].
  intros e. rewrite <- Hpoints. unfold params.
  destruct (points self); simpl; [split; intros [=]|].
  split; now intros [= ->].
Qed.

(** X2. Appending primitives to a constraint only appends Parameters: the
    [params] of the shorter list of primitives is a prefix of the [params]
    of the longer one, so that every Parameter keeps its index. *)
Theorem params_prefix_when_primitives_appended
    `{AbstractConstraint C} (self self' : C)
    (more : list Primitive) (ps : list Param) :
  primitives self' = primitives self ++ more ->
  params self = Ok ps ->
  exists ps',
    params self' = Ok ps' /\
    ps `prefix_of` ps' /\
    (forall i p, ps !! i = Some p -> ps' !! i = Some p).
Proof.
  intros Hmore [Hne ->]%params_params_loop.
  assert (Hne' : primitives self' ≠ []).
  { rewrite Hmore. now destruct (primitives self). }
  eexists. split; [now apply params_of_nonempty|].
  assert (Hpre : params_loop
                   (concat (map Primitive_points (primitives self)))
                 `prefix_of`
                 params_loop
                   (concat (map Primitive_points (primitives self')))).
  { rewrite Hmore, map_app, concat_app. unfold params_loop at 2.
    rewrite foldl_app, params_loop_coordinates, foldl_append_if_absent.
    now eexists. }
  split; [exact Hpre|].
  intros i p Hi. now apply (prefix_lookup_Some _ _ i p Hi).
Qed.

Lemma params_prefix_when_primitives_appended_witness :
  primitives
    {| PointToPointDistanceConstraint_primitives :=
         [PrimPoint (point_at 0); PrimPoint (point_at 2)];
       distance := 1 |}
  = primitives
      {| PointToPointDistanceConstraint_primitives := [PrimPoint (point_at 0)];
         distance := 1 |} ++ [PrimPoint (point_at 2)] /\
  params
    {| PointToPointDistanceConstraint_primitives := [PrimPoint (point_at 0)];
       distance := 1 |} = Ok [0; 1]%nat /\
  exists ps',
    params
      {| PointToPointDistanceConstraint_primitives :=
           [PrimPoint (point_at 0); PrimPoint (point_at 2)];
         distance := 1 |} = Ok ps' /\
    [0; 1]%nat `prefix_of` ps'.
Proof.
  assert (H1 : primitives
    {| PointToPointDistanceConstraint_primitives :=
         [PrimPoint (point_at 0); PrimPoint (point_at 2)];
       distance := 1 |}
  = primitives
      {| PointToPointDistanceConstraint_primitives := [PrimPoint (point_at 0)];
         distance := 1 |} ++ [PrimPoint (point_at 2)]) by reflexivity.
  assert (H2 : params
    {| PointToPointDistanceConstraint_primitives := [PrimPoint (point_at 0)];
       distance := 1 |} = Ok [0; 1]%nat) by reflexivity.
  split; [exact H1|]. split; [exact H2|].
  destruct (params_prefix_when_primitives_appended _ _ _ _ H1 H2)
    as (ps' & Hps' & Hpre & _).
  exists ps'. split; [exact Hps' | exact Hpre].
Defined.

(** X3. The Parameters of a constraint do not depend on the order of its
    primitives: when the primitives are permuted, [params] returns a
    permutation of what it returned. *)
Theorem params_permutation_of_primitives
    `{AbstractConstraint C} (self self' : C) (ps : list Param) :
  primitives self' ≡ₚ primitives self ->
  params self = Ok ps ->
  exists ps', params self' = Ok ps' /\ ps' ≡ₚ ps.
Proof.
  intros Hperm [Hne ->]%params_params_loop.
  assert (Hne' : primitives self' ≠ []).
  { intros Hnil. rewrite Hnil in Hperm.
    apply Permutation_nil in Hperm. congruence. }
  eexists. split; [now apply params_of_nonempty|].
  rewrite !params_loop_first_seen.
  apply NoDup_Permutation; try apply first_seen_NoDup.
  intros p. rewrite !first_seen_elem_of, !elem_of_coordinates.
  split; intros (pt & Hpt & Hp); exists pt; (split; [|done]);
    apply elem_of_concat_map in Hpt as (prim & Hprim & Hpt);
    apply elem_of_concat_map; exists prim; (split; [|done]).
  - now rewrite <- Hperm.
  - now rewrite Hperm.
Qed.

Lemma params_permutation_of_primitives_witness :
  primitives
    {| PointToPointDistanceConstraint_primitives :=
         [PrimPoint (point_at 2); PrimPoint (point_at 0)];
       distance := 1 |}
  ≡ₚ primitives
       {| PointToPointDistanceConstraint_primitives :=
            [PrimPoint (point_at 0); PrimPoint (point_at 2)];
          distance := 1 |} /\
  params
    {| PointToPointDistanceConstraint_primitives :=
         [PrimPoint (point_at 0); PrimPoint (point_at 2)];
       distance := 1 |} = Ok [0; 1; 2; 3]%nat /\
  exists ps',
    params
      {| PointToPointDistanceConstraint_primitives :=
           [PrimPoint (point_at 2); PrimPoint (point_at 0)];
         distance := 1 |} = Ok ps' /\
    ps' ≡ₚ [0; 1; 2; 3]%nat.
Proof.
  assert (H1 : primitives
    {| PointToPointDistanceConstraint_primitives :=
         [PrimPoint (point_at 2); PrimPoint (point_at 0)];
       distance := 1 |}
  ≡ₚ primitives
       {| PointToPointDistanceConstraint_primitives :=
            [PrimPoint (point_at 0); PrimPoint (point_at 2)];
          distance := 1 |}) by apply perm_swap.
  assert (H2 : params
    {| PointToPointDistanceConstraint_primitives :=
         [PrimPoint (point_at 0); PrimPoint (point_at 2)];
       distance := 1 |} = Ok [0; 1; 2; 3]%nat) by reflexivity.
  split; [exact H1|]. split; [exact H2|].
  exact (params_permutation_of_primitives _ _ _ H1 H2).
Defined.

(** X4. Whenever [points] and [params] return, [points] has at least as
    many and at most twice as many entries as there are primitives (a Point
    gives itself, a Line its two ends), and [params] is not empty and has at
    most twice as many entries as [points]. *)
Theorem points_params_sizes
    `{AbstractConstraint C} (self : C) (pts : list Point) (ps : list Param) :
  points self = Ok pts -> params self = Ok ps ->
  (length (primitives self) <= length pts <= 2 * length (primitives self))%nat
  /\ (1 <= length ps <= 2 * length pts)%nat.
Proof.
  intros [Hne ->]%points_concat [_ ->]%params_params_loop.
  pose proof (concat_points_length (primitives self)) as [Hlo Hhi].
  split; [lia|]. rewrite params_loop_first_seen.
  set (pts := concat (map Primitive_points (primitives self))) in *.
  pose proof (first_seen_length (coordinates pts)) as Hlen.
  rewrite coordinates_length in Hlen. split; [|lia].
  destruct pts as [|pt pts'] eqn:Hpts.
  - destruct (primitives self); simpl in *; [done|lia].
  - unfold coordinates. rewrite bind_cons. simpl. lia.
Qed.

Lemma points_params_sizes_witness :
  points (PointToPointDistanceConstraint_init (point_at 0) (point_at 0) 1)
    = Ok [point_at 0; point_at 0] /\
  params (PointToPointDistanceConstraint_init (point_at 0) (point_at 0) 1)
    = Ok [0; 1]%nat /\
  (1 <= length [0; 1]%nat <= 2 * length [point_at 0; point_at 0])%nat.
Proof.
  assert (H1 : points
    (PointToPointDistanceConstraint_init (point_at 0) (point_at 0) 1)
    = Ok [point_at 0; point_at 0]) by reflexivity.
  assert (H2 : params
    (PointToPointDistanceConstraint_init (point_at 0) (point_at 0) 1)
    = Ok [0; 1]%nat) by reflexivity.
  split; [exact H1|]. split; [exact H2|].
  exact (proj2 (points_params_sizes _ _ _ H1 H2)).
Defined.

(** ** Assigning a length *)

(** X7. A length that was accepted, by the constructor or by an assignment,
    is the float of the value given and is not below zero.  An assignment
    keeps the primitives, and with them the points and the Parameters.
    Assigning to a constraint the length it has is accepted and changes
    nothing. *)
Theorem length_assignment_round_trip :
  (forall (line : Line) (v : pyvalue) (c : LineLengthConstraint),
     LineLengthConstraint_init line v = Ok c ->
     py_float v = Ok (LineLengthConstraint_length c) /\
     (LineLengthConstraint_length c <? 0) = false /\
     primitives c = [PrimLine line] /\
     LineLengthConstraint_set_length c
       (PyFloat (LineLengthConstraint_length c)) = Ok c) /\
  (forall (self : LineLengthConstraint) (v : pyvalue)
          (c : LineLengthConstraint),
     LineLengthConstraint_set_length self v = Ok c ->
     py_float v = Ok (LineLengthConstraint_length c) /\
     (LineLengthConstraint_length c <? 0) = false /\
     primitives c = primitives self /\
     points c = points self /\ params c = params self /\
     LineLengthConstraint_set_length c
       (PyFloat (LineLengthConstraint_length c)) = Ok c).
Proof.
  assert (Hvalue : forall v l, length_setter_value v = Ok l ->
            py_float v = Ok l /\ (l <? 0) = false).
  { intros v l. unfold length_setter_value.
    destruct (py_float v) as [f|e]; simpl; [|done].
    destruct (f <? 0) eqn:Hf; [done|]. now intros [= <-]. }
  assert (Hagain : forall prims l, (l <? 0) = false ->
            LineLengthConstraint_set_length
              {| LineLengthConstraint_primitives := prims; _length := l |}
              (PyFloat l)
            = Ok {| LineLengthConstraint_primitives := prims;
                    _length := l |}).
  { intros prims l Hl. unfold LineLengthConstraint_set_length,
      length_setter_value. simpl. now rewrite Hl. }
  split.
  - intros line v c. unfold LineLengthConstraint_init.
    destruct (length_setter_value v) as [l|e] eqn:Hv; simpl; [|done].
    intros [= <-]. destruct (Hvalue v l Hv) as [Hf Hl].
    repeat split; try done. now apply Hagain.
  - intros self v c. unfold LineLengthConstraint_set_length at 1.
    destruct (length_setter_value v) as [l|e] eqn:Hv; simpl; [|done].
    intros [= <-]. destruct (Hvalue v l Hv) as [Hf Hl].
    repeat split; try done. now apply Hagain.
Qed.

Lemma length_assignment_round_trip_witness :
  LineLengthConstraint_init line_3_4 (PyInt 5)
    = Ok {| LineLengthConstraint_primitives := [PrimLine line_3_4];
            _length := 5 |} /\
  LineLengthConstraint_set_length
    {| LineLengthConstraint_primitives := [PrimLine line_3_4];
       _length := 5 |} (PyFloat 5)
    = Ok {| LineLengthConstraint_primitives := [PrimLine line_3_4];
            _length := 5 |}.
Proof.
  assert (H1 : LineLengthConstraint_init line_3_4 (PyInt 5)
    = Ok {| LineLengthConstraint_primitives := [PrimLine line_3_4];
            _length := 5 |}) by (vm_compute; reflexivity).
  split; [exact H1|].
  exact (proj2 (proj2 (proj2
    (proj1 length_assignment_round_trip line_3_4 (PyInt 5) _ H1)))).
Defined.

(** ** What [error] reads *)

Lemma Point_sub_ext (st st' : pstate) (a b : Point) :
  st (x a) = st' (x a) -> st (y a) = st' (y a) ->
  st (x b) = st' (x b) -> st (y b) = st' (y b) ->
  Point_sub st a b = Point_sub st' a b.
Proof. unfold Point_sub. now intros -> -> -> ->. Qed.

(** X5. [error] reads the state only at the Parameters that [params]
    lists: two states that agree on them give the same error (or the same
    exception).  For an [AngularConstraint] this holds as soon as
    [angle_between] reads only the coordinates of the end points of its two
    lines. *)
Theorem error_reads_only_params :
  (forall (self : LineLengthConstraint) (st st' : pstate) (ps : list Param),
     params self = Ok ps -> (forall p, p ∈ ps -> st p = st' p) ->
     error st self = error st' self) /\
  (forall (self : PointToPointDistanceConstraint) (st st' : pstate)
          (ps : list Param),
     params self = Ok ps -> (forall p, p ∈ ps -> st p = st' p) ->
     error st self = error st' self) /\
  (forall (angle_between : pstate -> Line -> Line -> result float),
     (forall (st st' : pstate) (a b : Line),
        (forall pt, pt ∈ [start a; end_ a; start b; end_ b] ->
           st (x pt) = st' (x pt) /\ st (y pt) = st' (y pt)) ->
        angle_between st a b = angle_between st' a b) ->
     forall (self : AngularConstraint) (st st' : pstate) (ps : list Param),
       @params _ (AngularConstraint_constraint angle_between) self = Ok ps ->
       (forall p, p ∈ ps -> st p = st' p) ->
       AngularConstraint_error angle_between st self =
       AngularConstraint_error angle_between st' self).
Proof.
  split; [|split].
  - intros self st st' ps Hps Hagree.
    pose proof (fun prim pt => params_covers_primitive self ps prim pt Hps)
      as Hcov. simpl in Hcov |- *.
    unfold LineLengthConstraint_error, LineLengthConstraint_line, getitem.
    destruct (LineLengthConstraint_primitives self) as [|[q|l] rest];
      simpl; try done.
    unfold Line_hypot, Line_vector.
    destruct (Hcov (PrimLine l) (start l)) as [Hsx Hsy];
      [left|simpl; left|].
    destruct (Hcov (PrimLine l) (end_ l)) as [Hex Hey];
      [left|simpl; right; left|].
    now rewrite (Point_sub_ext st st') by (apply Hagree; assumption).
  - intros self st st' ps Hps Hagree.
    pose proof (fun prim pt => params_covers_primitive self ps prim pt Hps)
      as Hcov. simpl in Hcov |- *.
    unfold PointToPointDistanceConstraint_error, point_a, point_b, getitem.
    destruct (PointToPointDistanceConstraint_primitives self)
      as [|[a|la] [|[b|lb] rest]]; simpl; try done.
    destruct (Hcov (PrimPoint a) a) as [Hax Hay]; [left|simpl; left|].
    destruct (Hcov (PrimPoint b) b) as [Hbx Hby];
      [right; left|simpl; left|].
    now rewrite (Point_sub_ext st st') by (apply Hagree; assumption).
  - intros ab Hlocal self st st' ps Hps Hagree.
    pose proof (fun prim pt =>
      @params_covers_primitive _ (AngularConstraint_constraint ab)
        self ps prim pt Hps) as Hcov. simpl in Hcov.
    unfold AngularConstraint_error, line_a, line_b, getitem.
    destruct (AngularConstraint_primitives self)
      as [|[a|la] [|[b|lb] rest]]; simpl; try done.
    rewrite (Hlocal st st' la lb); [done|].
    intros pt Hpt.
    assert (Hin : exists prim,
              prim ∈ PrimLine la :: PrimLine lb :: rest /\
              pt ∈ Primitive_points prim).
    { rewrite !elem_of_cons, elem_of_nil in Hpt.
      destruct Hpt as [->|[->|[->|[->|[]]]]].
      - exists (PrimLine la). split; [left|simpl; left].
      - exists (PrimLine la). split; [left|simpl; right; left].
      - exists (PrimLine lb). split; [right; left|simpl; left].
      - exists (PrimLine lb). split; [right; left|simpl; right; left]. }
    destruct Hin as (prim & Hprim & Hpp).
    destruct (Hcov prim pt Hprim Hpp) as [Hx Hy].
    split; apply Hagree; assumption.
Qed.

Lemma error_reads_only_params_witness :
  params (PointToPointDistanceConstraint_init (point_at 0) (point_at 2) 1)
    = Ok [0; 1; 2; 3]%nat /\
  (forall p, p ∈ [0; 1; 2; 3]%nat ->
     state_of [0; 0; 1; 1] p = state_of [0; 0; 1; 1; 7] p) /\
  error (state_of [0; 0; 1; 1])
    (PointToPointDistanceConstraint_init (point_at 0) (point_at 2) 1)
  = error (state_of [0; 0; 1; 1; 7])
      (PointToPointDistanceConstraint_init (point_at 0) (point_at 2) 1).
Proof.
  assert (H1 : params
    (PointToPointDistanceConstraint_init (point_at 0) (point_at 2) 1)
    = Ok [0; 1; 2; 3]%nat) by reflexivity.
  assert (H2 : forall p, p ∈ [0; 1; 2; 3]%nat ->
     state_of [0; 0; 1; 1] p = state_of [0; 0; 1; 1; 7] p).
  { intros p Hp. rewrite !elem_of_cons, elem_of_nil in Hp.
    destruct Hp as [->|[->|[->|[->|[]]]]]; reflexivity. }
  split; [exact H1|]. split; [exact H2|].
  exact (proj1 (proj2 error_reads_only_params) _ _ _ _ H1 H2).
Defined.

(** ** Symmetry and definedness of the distance errors *)

Section Opposite.

#[local] Open Scope Z_scope.

Lemma SFopp_binary_round_aux (s : bool) (m e : Z) (l : location) :
  SFopp (binary_round_aux prec emax s m e l) =
  binary_round_aux prec emax (negb s) m e l.
Proof.
  unfold binary_round_aux.
  destruct (shr_fexp prec emax m e l) as [mrs' e'].
  destruct (shr_fexp prec emax _ e' loc_Exact) as [mrs'' e''].
  destruct (shr_m mrs'') as [|q|q]; simpl; try done.
  now destruct (e'' <=? emax - prec).
Qed.

Lemma SFopp_binary_round (s : bool) (m : positive) (e : Z) :
  SFopp (binary_round prec emax s m e) = binary_round prec emax (negb s) m e.
Proof.
  unfold binary_round. destruct (shl_align m e _) as [mz ez].
  apply SFopp_binary_round_aux.
Qed.

(** Exchanging the operands of a subtraction gives the opposite, except
    that both differences of equal numbers are [+0]. *)
Lemma SFsub_swap (a b : spec_float) :
  SF64sub b a = SFopp (SF64sub a b) \/
  (SF64sub b a = S754_zero false /\ SF64sub a b = S754_zero false).
Proof.
  destruct a as [sa|sa| |sa ma ea], b as [sb|sb| |sb mb eb];
    try (destruct sa, sb; simpl; tauto);
    try (destruct sa; simpl; tauto);
    try (destruct sb; simpl; tauto); try (simpl; tauto).
  unfold SF64sub, SFsub. cbv zeta. rewrite (Z.min_comm eb ea).
  set (A := cond_Zopp sa (Z.pos (fst (shl_align ma ea (Z.min ea eb))))).
  set (B := cond_Zopp sb (Z.pos (fst (shl_align mb eb (Z.min ea eb))))).
  replace (B - A) with (- (A - B)) by lia.
  destruct (A - B) as [|z|z]; simpl.
  - now right.
  - left. now rewrite SFopp_binary_round.
  - left. now rewrite SFopp_binary_round.
Qed.

Lemma SFmul_opp_opp (r : spec_float) :
  SF64mul (SFopp r) (SFopp r) = SF64mul r r.
Proof. destruct r as [[]|[]| |[]]; reflexivity. Qed.

Lemma SFsub_zero_l (d : spec_float) :
  SFabs (SF64sub (S754_zero false) d) = SFabs d.
Proof. destruct d as [[]|[]| |[]]; reflexivity. Qed.

Lemma SFsub_self (a : spec_float) :
  valid_binary a = true -> SF_is_nan a = false -> SF_is_infinity a = false ->
  SF64sub a a = S754_zero false.
Proof.
  destruct a as [[]|[]| |s m e]; try done. intros Hv _ _.
  destruct (SFsub_finite s s m m e e Hv Hv) as [[Hz _]|[_ Hne]]; [done|].
  now destruct Hne.
Qed.

Lemma SF_infinity_ne_finite (m t : spec_float) :
  SF_is_nan t = false -> SF_is_infinity t = false ->
  SF_is_infinity m && SFeqb m t = false.
Proof. destruct m as [| | |], t as [| | |]; try done; now destruct s. Qed.

End Opposite.

Lemma square_sub_swap (a b : float) :
  (b - a) * (b - a) = (a - b) * (a - b).
Proof.
  apply Prim2SF_inj. rewrite !mul_spec, !sub_spec.
  destruct (SFsub_swap (Prim2SF a) (Prim2SF b)) as [->|[-> ->]]; [|done].
  apply SFmul_opp_opp.
Qed.

Lemma Vec_abs_Point_sub_swap (st : pstate) (a b : Point) :
  Vec_abs (Point_sub st b a) = Vec_abs (Point_sub st a b).
Proof.
  unfold Vec_abs, Point_sub. simpl.
  now rewrite (square_sub_swap (st (x a))), (square_sub_swap (st (y a))).
Qed.

Lemma sub_self (f : float) : is_finite f = true -> f - f = 0.
Proof.
  rewrite is_finite_spec. intros Hf%negb_true_iff%orb_false_iff.
  destruct Hf as [Hn Hi]. apply Prim2SF_inj.
  rewrite sub_spec, Prim2SF_zero.
  apply SFsub_self; [apply Prim2SF_valid|done..].
Qed.

Lemma abs_zero_sub (d : float) : abs (0 - d) = abs d.
Proof.
  apply Prim2SF_inj. rewrite !abs_spec, sub_spec, Prim2SF_zero.
  apply SFsub_zero_l.
Qed.

Lemma leb_zero_not_nan (m : float) : (0 <=? m) = true -> is_nan m = false.
Proof.
  rewrite leb_spec, is_nan_spec, Prim2SF_zero. now destruct (Prim2SF m).
Qed.

Lemma abs_sub_finite_target_not_nan (m t : float) :
  is_nan m = false -> is_finite t = true -> is_nan (abs (m - t)) = false.
Proof.
  intros Hm. rewrite is_finite_spec.
  intros Ht%negb_true_iff%orb_false_iff. destruct Ht as [Hn Hi].
  rewrite abs_sub_is_nan, Hm. rewrite !is_nan_spec, is_infinity_spec,
    FloatAxioms.eqb_spec, Hn. simpl. now apply SF_infinity_ne_finite.
Qed.

(** X6. With the subtraction and the magnitude of Points as modelled from
    the specification, the distance errors do not depend on the direction:
    exchanging the two points of a [PointToPointDistanceConstraint], or the
    two ends of the line of a [LineLengthConstraint], gives the same
    [error()] in every state, as a binary64 value with all NaNs taken as
    one. *)
Theorem distance_errors_symmetric :
  (forall (st : pstate) (a b : Point) (d : float),
     error st (PointToPointDistanceConstraint_init b a d) =
     error st (PointToPointDistanceConstraint_init a b d)) /\
  (forall (st : pstate) (line : Line) (v : pyvalue),
     (c ← LineLengthConstraint_init (mkLine (end_ line) (start line)) v;
      error st c) =
     (c ← LineLengthConstraint_init line v; error st c)).
Proof.
  split.
  - intros st a b d. simpl.
    unfold PointToPointDistanceConstraint_error. simpl.
    now rewrite Vec_abs_Point_sub_swap.
  - intros st line v. unfold LineLengthConstraint_init.
    destruct (length_setter_value v) as [l|e]; simpl; [|done].
    unfold LineLengthConstraint_error. simpl.
    unfold Line_hypot, Line_vector. simpl.
    now rewrite Vec_abs_Point_sub_swap.
Qed.

(** X8. When the coordinates it reads are finite and its target is finite,
    the error of a [LineLengthConstraint] or of a
    [PointToPointDistanceConstraint] is a number: it is not NaN and it is at
    least zero. *)
Theorem distance_errors_defined_on_finite_values :
  (forall (st : pstate) (line : Line) (v : pyvalue)
          (c : LineLengthConstraint),
     LineLengthConstraint_init line v = Ok c ->
     is_finite (LineLengthConstraint_length c) = true ->
     is_finite (st (x (start line))) = true ->
     is_finite (st (y (start line))) = true ->
     is_finite (st (x (end_ line))) = true ->
     is_finite (st (y (end_ line))) = true ->
     exists e, error st c = Ok e /\ is_nan e = false /\ (0 <=? e) = true) /\
  (forall (st : pstate) (a b : Point) (d : float),
     is_finite d = true ->
     is_finite (st (x a)) = true -> is_finite (st (y a)) = true ->
     is_finite (st (x b)) = true -> is_finite (st (y b)) = true ->
     exists e,
       error st (PointToPointDistanceConstraint_init a b d) = Ok e /\
       is_nan e = false /\ (0 <=? e) = true).
Proof.
  assert (Hdef : forall dx dy t,
    is_nan dx = false -> is_nan dy = false -> is_finite t = true ->
    is_nan (abs (sqrt (dx * dx + dy * dy) - t)) = false /\
    (0 <=? abs (sqrt (dx * dx + dy * dy) - t)) = true).
  { intros dx dy t Hx Hy Ht.
    assert (Hn : is_nan (abs (sqrt (dx * dx + dy * dy) - t)) = false).
    { apply abs_sub_finite_target_not_nan; [|done].
      now apply leb_zero_not_nan, sqrt_sum_squares_nonneg. }
    split; [done|]. now apply abs_sub_not_nan. }
  split.
  - intros st line v c Hc Hl Hsx Hsy Hex Hey.
    unfold LineLengthConstraint_init in Hc.
    destruct (length_setter_value v) as [l|]; simpl in Hc; [|done].
    injection Hc as <-. eexists. split; [reflexivity|].
    apply Hdef; [now apply sub_finite_not_nan..|done].
  - intros st a b d Hd Hax Hay Hbx Hby.
    eexists. split; [reflexivity|].
    apply Hdef; [now apply sub_finite_not_nan..|done].
Qed.

Lemma distance_errors_defined_on_finite_values_witness :
  is_finite 1 = true /\
  exists e,
    error state_1_1
      (PointToPointDistanceConstraint_init (point_at 0) (point_at 2) 1)
      = Ok e /\
    is_nan e = false /\ (0 <=? e) = true.
Proof.
  split; [reflexivity|].
  apply (proj2 distance_errors_defined_on_finite_values
           state_1_1 (point_at 0) (point_at 2) 1); reflexivity.
Defined.

(** X9. A point is at distance zero from itself: in every state with finite
    coordinates, the error of a [PointToPointDistanceConstraint] between a
    Point and itself is the absolute value of the target, and so is the
    error of a [LineLengthConstraint] on a line whose two ends are the same
    Point. *)
Theorem coincident_points_error_is_target :
  (forall (st : pstate) (p : Point) (d : float),
     is_finite (st (x p)) = true -> is_finite (st (y p)) = true ->
     error st (PointToPointDistanceConstraint_init p p d) = Ok (abs d)) /\
  (forall (st : pstate) (p : Point) (v : pyvalue) (c : LineLengthConstraint),
     is_finite (st (x p)) = true -> is_finite (st (y p)) = true ->
     LineLengthConstraint_init (mkLine p p) v = Ok c ->
     error st c = Ok (abs (LineLengthConstraint_length c))).
Proof.
  assert (Hzero : forall st p,
    is_finite (st (x p)) = true -> is_finite (st (y p)) = true ->
    Vec_abs (Point_sub st p p) = 0).
  { intros st p Hx Hy. unfold Vec_abs, Point_sub. simpl.
    now rewrite !sub_self. }
  split.
  - intros st p d Hx Hy. simpl.
    unfold PointToPointDistanceConstraint_error. simpl.
    now rewrite Hzero, abs_zero_sub.
  - intros st p v c Hx Hy Hc. unfold LineLengthConstraint_init in Hc.
    destruct (length_setter_value v) as [l|]; simpl in Hc; [|done].
    injection Hc as <-. simpl.
    unfold LineLengthConstraint_error. simpl.
    unfold Line_hypot, Line_vector. simpl.
    now rewrite Hzero, abs_zero_sub.
Qed.

Lemma coincident_points_error_is_target_witness :
  is_finite (state_1_1 (x (point_at 2))) = true /\
  is_finite (state_1_1 (y (point_at 2))) = true /\
  error state_1_1
    (PointToPointDistanceConstraint_init (point_at 2) (point_at 2) (-3))
  = Ok (abs (-3)).
Proof.
  split; [reflexivity|]. split; [reflexivity|].
  apply (proj1 coincident_points_error_is_target); reflexivity.
Defined.

(** X10. Assigning to [length] the length that the line has in the current
    state satisfies the constraint: when the coordinates of the line are
    finite and its length did not overflow, the assignment is accepted and
    [error()] is then 0.0. *)
Theorem assigning_measured_length_satisfies
    (st : pstate) (self : LineLengthConstraint) (line : Line) :
  LineLengthConstraint_line self = Ok line ->
  is_finite (st (x (start line))) = true ->
  is_finite (st (y (start line))) = true ->
  is_finite (st (x (end_ line))) = true ->
  is_finite (st (y (end_ line))) = true ->
  is_finite (Line_hypot st line) = true ->
  exists c,
    LineLengthConstraint_set_length self (PyFloat (Line_hypot st line)) = Ok c
    /\ LineLengthConstraint_length c = Line_hypot st line
    /\ error st c = Ok 0.
Proof.
  intros Hline Hsx Hsy Hex Hey Hfin.
  assert (Hpos : (0 <=? Line_hypot st line) = true).
  { unfold Line_hypot, Line_vector, Vec_abs, Point_sub. simpl.
    apply sqrt_sum_squares_nonneg; now apply sub_finite_not_nan. }
  eexists. split; [|split].
  - unfold LineLengthConstraint_set_length.
    rewrite (length_setter_value_accepts (PyFloat (Line_hypot st line))
               (Line_hypot st line) eq_refl (leb_zero_not_ltb _ Hpos)).
    reflexivity.
  - reflexivity.
  - simpl. unfold LineLengthConstraint_error.
    unfold LineLengthConstraint_line in *. simpl. rewrite Hline. simpl.
    unfold LineLengthConstraint_length. simpl.
    now rewrite (sub_self _ Hfin).
Qed.

Lemma assigning_measured_length_satisfies_witness :
  LineLengthConstraint_line
    {| LineLengthConstraint_primitives := [PrimLine line_3_4];
       _length := 4 |} = Ok line_3_4 /\
  is_finite (Line_hypot state_3_4 line_3_4) = true /\
  exists c,
    LineLengthConstraint_set_length
      {| LineLengthConstraint_primitives := [PrimLine line_3_4];
         _length := 4 |}
      (PyFloat (Line_hypot state_3_4 line_3_4)) = Ok c
    /\ LineLengthConstraint_length c = Line_hypot state_3_4 line_3_4
    /\ error state_3_4 c = Ok 0.
Proof.
  split; [reflexivity|]. split; [reflexivity|].
  apply (assigning_measured_length_satisfies state_3_4
           {| LineLengthConstraint_primitives := [PrimLine line_3_4];
              _length := 4 |} line_3_4); reflexivity.
Defined.
